(** * XMLModuleStore: the XML-backed, read-only module store

    A shallow embedding of [common/lib/xmodule/xmodule/modulestore/xml.py]:
    the slug allocation done by [process_xml], the registration of the
    descriptors in [XMLModuleStore.modules], [load_course], [get_item] and
    the rejected mutation methods.

    Python objects that the code shares and compares by identity (the
    descriptors) live in an object store; [self.modules] is a [gmap] from
    [Location] to descriptor, [self.used_slugs] a [gset] of strings.
    Exceptions do not roll the state back: every computation returns the
    state it reached next to its outcome. *)

From Stdlib Require Import Ascii String.
From stdpp Require Import base gmap sets list strings pretty.

#[local] Set Warnings "-clear-no-such-hyp".
#[local] Open Scope string_scope.
#[local] Open Scope list_scope.

(** ** Locations *)

(** What callers pass where "something that can be passed to Location" is
    expected: every field may be missing ([None]). *)
Record LocationLike : Type := mkLocationLike {
  like_org : option string;
  like_course : option string;
  like_category : option string;
  like_slug : option string;
  like_revision : option string
}.

(** Modelled from the spec: the [Location] class of
    [xmodule/modulestore/__init__.py], which is not among the sources.
    A composite immutable key (organization, course, category, slug,
    revision) with structural equality and hashing; revision may be absent. *)
Record Location : Type := mkLocation {
  org : string;
  course : string;
  category : string;
  slug : string;
  revision : option string
}.

#[global] Instance Location_eq_dec : EqDecision Location.
Proof. solve_decision. Defined.

#[global] Instance Location_countable : Countable Location.
Proof.
  refine (inj_countable'
            (λ l, (org l, course l, category l, slug l, revision l))
            (λ t, let '(o, c, k, s, r) := t in mkLocation o c k s r) _).
  by intros [].
Defined.

(** ** Exceptions raised by the store *)

Inductive Exn : Type :=
  | ParseError (text : string)          (* lxml rejects the text *)
  | IOError                             (* course.xml cannot be opened *)
  | ResourceNotFoundError (path : string)   (* OSFS finds no directory *)
  | ImportError (name : string)         (* import_module or getattr fails *)
  | AttributeError (attr : string)
  | InsufficientSpecificationError (l : LocationLike)
  | ItemNotFoundError (l : Location)
  | NotImplementedError (msg : string).

(** What the store calls outside the repository.  [OSFS] is the constructor
    of [fs.osfs.OSFS] (line 102): it raises when the directory it is given
    does not exist.  [import_class] is
    [getattr(import_module(module_path), class_name)] of lines 41-42, which
    rests on Python's import system: it raises when the module cannot be
    imported or has no such attribute. *)
Record Platform := mkPlatform {
  OSFS : string → Exn + unit;
  import_class : string → string → Exn + unit;
}.

(** Modelled from the spec: the constructor [Location(...)] of
    [xmodule/modulestore/__init__.py].  Any field other than the revision
    being [None] signals the "insufficiently specified" error. *)
Definition Location_new (l : LocationLike) : Exn + Location :=
  match like_org l, like_course l, like_category l, like_slug l with
  | Some o, Some c, Some k, Some s => inr (mkLocation o c k s (like_revision l))
  | _, _, _, _ => inl (InsufficientSpecificationError l)
  end.

Definition to_like (l : Location) : LocationLike :=
  mkLocationLike (Some (org l)) (Some (course l)) (Some (category l))
                 (Some (slug l)) (revision l).

(** Modelled from the spec: [Location.clean], which is not among the
    sources.  Characters outside letters, digits, [_], [.] and [-] are
    replaced by [_] and runs of [_] are collapsed.  The development below is
    parametric in the cleaning function; this one instantiates it in the
    closed examples. *)
Definition safe_char (c : ascii) : bool :=
  let n := nat_of_ascii c in
  (((48 <=? n) && (n <=? 57)) || ((65 <=? n) && (n <=? 90))
   || ((97 <=? n) && (n <=? 122)) || (n =? 95) || (n =? 46) || (n =? 45))%nat.

Fixpoint clean_from (prev_underscore : bool) (s : string) : string :=
  match s with
  | EmptyString => EmptyString
  | String c s' =>
      let c' := if safe_char c then c else "_"%char in
      if Ascii.eqb c' "_"%char
      then (if prev_underscore then clean_from true s'
            else String c' (clean_from true s'))
      else String c' (clean_from false s')
  end.

Definition Location_clean (value : string) : string := clean_from false value.

(** ** XML *)

(** An XML text together with what [etree.fromstring] makes of it: either
    lxml rejects it, or it is an element with a tag, attributes and the
    texts of its child elements ([etree.tostring] of each child). *)
#[local] Unset Elimination Schemes.
Inductive xml : Type :=
  | Malformed (text : string)
  | Element (tag : string) (attrib : gmap string string) (children : list xml).
#[local] Set Elimination Schemes.

(** Induction over a text and, through [Forall], over its child texts. *)
Fixpoint xml_ind (P : xml → Prop)
    (Hmal : ∀ text, P (Malformed text))
    (Helem : ∀ tag attrib children,
        Forall P children → P (Element tag attrib children))
    (x : xml) : P x :=
  match x with
  | Malformed text => Hmal text
  | Element tag attrib children =>
      Helem tag attrib children
        ((fix all (l : list xml) : Forall P l :=
            match l with
            | [] => @List.Forall_nil _ P
            | c :: l' => @List.Forall_cons _ P c l' (xml_ind P Hmal Helem c) (all l')
            end) children)
  end.

(** ** Descriptors and the store *)

(** A descriptor object.  [oid] is the identity of the Python object (its
    position in the object store); the definition holds the child texts that
    have not been processed yet. *)
Record XModuleDescriptor : Type := mkDescriptor {
  oid : nat;
  location : Location;
  xml_attrib : gmap string string;
  definition : list xml
}.

(** A class object, as [getattr(import_module(module_path), class_name)]
    yields it: it is identified by the module and the name it was found
    under. *)
Record PyClass : Type := mkClass {
  class_module : string;
  class_name : string
}.

Record XMLModuleStore : Type := mkStore {
  eager : bool;
  data_dir : string;
  modules : gmap Location XModuleDescriptor;
  courses : list string;
  default_class : option PyClass
}.

Definition set_modules (f : gmap Location XModuleDescriptor →
                            gmap Location XModuleDescriptor)
    (ms : XMLModuleStore) : XMLModuleStore :=
  mkStore (eager ms) (data_dir ms) (f (modules ms)) (courses ms)
          (default_class ms).

(** The store and every descriptor object constructed so far. *)
Record world : Type := mkWorld {
  modulestore : XMLModuleStore;
  objects : list XModuleDescriptor
}.

(** The per-load [ImportSystem] instance: lines 69-70. *)
Record ImportSystem : Type := mkSystem {
  unnamed_modules : nat;
  used_slugs : gset string
}.

(** ** Computations that may raise *)

Definition M (S A : Type) : Type := S → (Exn + A) * S.

Definition ret {S A} (a : A) : M S A := λ s, (inr a, s).
Definition raise {S A} (e : Exn) : M S A := λ s, (inl e, s).
Definition bind {S A B} (c : M S A) (k : A → M S B) : M S B :=
  λ s, match c s with
       | (inr a, s') => k a s'
       | (inl e, s') => (inl e, s')
       end.
Definition gets {S A} (f : S → A) : M S A := λ s, (inr (f s), s).
Definition modify {S} (f : S → S) : M S unit := λ s, (inr tt, f s).
Definition lift_exn {S A} (r : Exn + A) : M S A := λ s, (r, s).

Notation "'let*' x := c 'in' k" := (bind c (λ x, k))
  (at level 10, x pattern, c at level 100, k at level 200).

(** Running [f] on every element in order, as a Python list comprehension
    does; the first exception aborts the rest. *)
Definition mapM {S A B} (f : A → M S B) : list A → M S (list B) :=
  fix go (l : list A) : M S (list B) :=
    match l with
    | [] => ret []
    | a :: l' => let* b := f a in let* bs := go l' in ret (b :: bs)
    end.

(** ** The query and mutation methods *)

(** Lines 110-126. *)
Definition get_item (location : LocationLike)
    : M XMLModuleStore XModuleDescriptor :=
  let* location := lift_exn (Location_new location) in
  let* found := gets (λ self, modules self !! location) in
  match found with
  | Some module => ret module
  | None => raise (ItemNotFoundError location)
  end.

(** Lines 128-133: the reply is [settings.COURSES], the list configured in
    Django's settings, which is a parameter here; [self.courses] is not
    consulted. *)
Definition get_courses (settings_COURSES : list string)
    : M XMLModuleStore (list string) :=
  ret settings_COURSES.

Definition read_only : string := "XMLModuleStores are read-only".

(** Lines 135-166. *)
Definition create_item (location : LocationLike) : M XMLModuleStore unit :=
  raise (NotImplementedError read_only).

Definition update_item {Data : Type} (location : LocationLike) (data : Data)
    : M XMLModuleStore unit :=
  raise (NotImplementedError read_only).

Definition update_children {Children : Type} (location : LocationLike)
    (children : Children) : M XMLModuleStore unit :=
  raise (NotImplementedError read_only).

Definition update_metadata {Metadata : Type} (location : LocationLike)
    (metadata : Metadata) : M XMLModuleStore unit :=
  raise (NotImplementedError read_only).

(** ** Paths and dotted names *)

(** [a / b] of [path.py]. *)
Definition path_join (a b : string) : string := a +:+ "/" +:+ b.

(** The parts before and after the last dot, when there is one. *)
Fixpoint split_last_dot (s : string) : option (string * string) :=
  match s with
  | EmptyString => None
  | String c s' =>
      match split_last_dot s' with
      | Some (head, tail) => Some (String c head, tail)
      | None => if Ascii.eqb c "."%char then Some (EmptyString, s') else None
      end
  end.

(** [s.rpartition('.')] without its middle component: the whole string is
    the last part when it holds no dot. *)
Definition rpartition_dot (s : string) : string * string :=
  match split_last_dot s with
  | Some parts => parts
  | None => (EmptyString, s)
  end.

(** ** Notions about synthesized slugs *)

(** The string holds no underscore. *)
Fixpoint no_underscore (s : string) : bool :=
  match s with
  | EmptyString => true
  | String c s' => negb (Ascii.eqb c "_"%char) && no_underscore s'
  end.

Definition tag_of (x : xml) : string :=
  match x with
  | Malformed _ => EmptyString
  | Element tag _ _ => tag
  end.

(** An element that has neither a slug nor a name that counts: line 79
    takes the else branch for it. *)
Definition unnamed (x : xml) : Prop :=
  match x with
  | Malformed _ => False
  | Element _ attrib _ =>
      attrib !! "slug" = None ∧
      (attrib !! "name" = None ∨ attrib !! "name" = Some EmptyString)
  end.

(** The slugs that line 83 writes for the elements of [l], one after the
    other, when the counter stands at [n] before the first. *)
Fixpoint synthesized (n : nat) (l : list xml) : list string :=
  match l with
  | [] => []
  | x :: l' => (tag_of x +:+ "_" +:+ pretty (S n)) :: synthesized (S n) l'
  end.

(** The string is some text, an underscore and the numeral of a number: the
    shape of the slugs that lines 83 and 87 write. *)
Definition numbered (s : string) : Prop :=
  ∃ (t : string) (k : nat), s = t +:+ "_" +:+ pretty k.

(** Every used slug is either not of that shape, or numbered with a number
    that the counter has reached. *)
Definition accounted (self : ImportSystem) : Prop :=
  ∀ s, s ∈ used_slugs self →
       (∃ (t : string) (k : nat),
          s = t +:+ "_" +:+ pretty k ∧ (k ≤ unnamed_modules self)%nat)
       ∨ ¬ numbered s.

(** Every used slug ends in an underscore and a number that the counter has
    reached. *)
Definition numbered_so_far (self : ImportSystem) : Prop :=
  ∀ s, s ∈ used_slugs self →
       ∃ (t : string) (k : nat),
         s = t +:+ "_" +:+ pretty k ∧ (k ≤ unnamed_modules self)%nat.

(** Closes a goal [x ∈ X] or [x ∉ X] on concrete sets by evaluation. *)
Ltac by_evaluation :=
  first [ apply (bool_decide_eq_true_1 _)
        | apply (bool_decide_eq_false_1 _) ];
  vm_compute; reflexivity.

(** ** Example courses *)

Definition element (tag : string) (attrs : list (string * string))
    (children : list xml) : xml :=
  Element tag (list_to_map attrs) children.

Definition toy_attrs : list (string * string) :=
  [("org", "edX"); ("course", "toy"); ("slug", "2012_Fall")].

(** Two html children with the same explicit slug. *)
Definition duplicate_course : xml :=
  element "course" toy_attrs
    [element "html" [("slug", "intro")] [];
     element "html" [("slug", "intro"); ("display_name", "Second")] []].

(** Two problems of the same name after one whose name ends in "_1". *)
Definition repeated_names_course : xml :=
  element "course" toy_attrs
    [element "problem" [("name", "quiz_1")] [];
     element "problem" [("name", "quiz")] [];
     element "problem" [("name", "quiz")] []].

(** Two problems of the same name and an html element without name; the
    second problem has a child. *)
Definition named_course : xml :=
  element "course" toy_attrs
    [element "problem" [("name", "quiz")] [];
     element "problem" [("name", "quiz")] [element "html" [] []];
     element "html" [("name", EmptyString)] []].

(** No element has a slug or a name; tags repeat and nest. *)
Definition unnamed_course : xml :=
  Element "course" {["org" := "edX"; "course" := "toy"]}
    [Element "chapter" ∅ [Element "html" ∅ []; Element "html" ∅ []];
     Element "html" {["name" := EmptyString]} []].

(** A data directory with a stray file between two courses, the second of
    which has a course.xml that lxml rejects. *)
Definition toy_listing : list (string * bool * option xml) :=
  [("toy", true, Some duplicate_course);
   ("README", false, None);
   ("broken", true, Some (Malformed "<course"));
   ("unnamed", true, Some unnamed_course)].

(** A file system that has every directory and a Python that has every
    class. *)
Definition every_directory (path : string) : Exn + unit := inr tt.

Definition every_class (module_path class_name : string) : Exn + unit :=
  inr tt.

Definition toy_platform : Platform := mkPlatform every_directory every_class.

Definition empty_store (eager : bool) : XMLModuleStore :=
  mkStore eager "data" ∅ [] None.

Definition empty_world : world := mkWorld (empty_store true) [].

Definition root_location : Location :=
  mkLocation "edX" "toy" "course" "2012_Fall" None.

Definition intro_location : Location :=
  mkLocation "edX" "toy" "html" "intro" None.

(** The identity and the Location of every object, in order of
    construction. *)
Definition identities (w : world) : list (nat * Location) :=
  (λ d, (oid d, location d)) <$> objects w.

(** The identity of the descriptor a computation returned, if it did. *)
Definition returned_oid {S} (r : (Exn + XModuleDescriptor) * S) : option nat :=
  match r.1 with inl _ => None | inr d => Some (oid d) end.

(** ** The load of one course *)

Section CourseLoad.

(** [Location.clean] is not among the sources: the load is parametric in it. *)
Variable clean : string → string.

(** [process_xml] and the constructor of [ImportSystem] read [self.eager]
    and [self.data_dir] on the [ImportSystem] instance (lines 95 and 102),
    whose own [__init__] sets neither: what these lookups yield is decided by
    its base classes in [x_module.py] and [mako_module.py], which are not
    among the sources.  [None] stands for a failing lookup. *)
Variable ImportSystem_data_dir : option string.
Variable ImportSystem_eager : option bool.

(** The file system and the Python import system that the store runs on. *)
Variable platform : Platform.

(** A proof depends on the assumptions its statement names, and on no
    other. *)
#[local] Set Default Proof Using "Type".

(** Lines 78-90 of [process_xml]: make sure the element has a [slug]
    attribute.  The result is [xml_data.attrib] after line 90 and [self]
    with its counter and its set of used slugs updated. *)
Definition ensure_slug (tag : string) (attrib : gmap string string)
    (self : ImportSystem) : gmap string string * ImportSystem :=
  match attrib !! "slug" with
  | Some _ => (attrib, self)
  | None =>
      let '(slug, self) :=
        match attrib !! "name" with
        | Some (String c n) => (clean (String c n), self)
        | _ =>
            let count := S (unnamed_modules self) in
            (tag +:+ "_" +:+ pretty count, mkSystem count (used_slugs self))
        end in
      let '(slug, self) :=
        if decide (slug ∈ used_slugs self) then
          let count := S (unnamed_modules self) in
          (slug +:+ "_" +:+ pretty count, mkSystem count (used_slugs self))
        else (slug, self) in
      (<["slug" := slug]> attrib,
       mkSystem (unnamed_modules self) ({[slug]} ∪ used_slugs self))
  end.

(** Modelled from the spec: [XModuleDescriptor.load_from_xml] of
    [x_module.py], which is not among the sources.  It constructs the
    descriptor with the Location (org, course, tag, slug) and keeps the child
    texts unprocessed; the new object is added to the object store. *)
Definition load_from_xml (tag : string) (attrib : gmap string string)
    (children : list xml) (org course : option string)
    : M (ImportSystem * world) XModuleDescriptor :=
  let* loc := lift_exn (Location_new
      (mkLocationLike org course (Some tag) (attrib !! "slug") None)) in
  let* n := gets (λ s, length (objects s.2)) in
  let module := mkDescriptor n loc attrib children in
  let* _ := modify (λ s,
      (s.1, mkWorld (modulestore s.2) (objects s.2 ++ [module]))) in
  ret module.

(** Line 93: [modulestore.modules[module.location] = module]. *)
Definition register (module : XModuleDescriptor)
    : M (ImportSystem * world) unit :=
  modify (λ s, (s.1,
    mkWorld (set_modules <[location module := module]> (modulestore s.2))
            (objects s.2))).

(** Lines 78-90 run on the [ImportSystem] of the current load. *)
Definition allocate (tag : string) (attrib : gmap string string)
    : M (ImportSystem * world) (gmap string string) :=
  λ s, let '(attrib, self) := ensure_slug tag attrib s.1 in
       (inr attrib, (self, s.2)).

(** Lines 72-97.  [org] and [course] are the variables of [load_course]
    captured by the closure.
    Modelled from the spec: [module.get_children()], which is not among the
    sources, hands every child text of the definition to [process_xml]. *)
Fixpoint process_xml (org course : option string) (xml : xml)
    : M (ImportSystem * world) XModuleDescriptor :=
  match xml with
  | Malformed text => raise (ParseError text)
  | Element tag attrib children =>
      let* attrib := allocate tag attrib in
      let* module := load_from_xml tag attrib children org course in
      let* _ := register module in
      match ImportSystem_eager with
      | None => raise (AttributeError "eager")
      | Some true =>
          let* _ := mapM (process_xml org course) children in ret module
      | Some false => ret module
      end
  end.

(** Lines 64-70 and 99-106: the construction of the [ImportSystem] of one
    load.  The keyword arguments are evaluated first, [self.data_dir] and
    [OSFS] among them; the allocator starts with the counter at zero and no
    slug used. *)
Definition ImportSystem_new (course_dir : string) : Exn + ImportSystem :=
  match ImportSystem_data_dir with
  | None => inl (AttributeError "data_dir")
  | Some data_dir =>
      match OSFS platform (path_join data_dir course_dir) with
      | inl e => inl e
      | inr _ => inr (mkSystem 0 ∅)
      end
  end.

(** Lines 51-108.  [course_file] is what [open] and [etree.parse] make of
    [data_dir / course_dir / "course.xml"]: [None] when the file cannot be
    opened. *)
Definition load_course (course_dir : string) (course_file : option xml)
    : M world XModuleDescriptor :=
  match course_file with
  | None => raise IOError
  | Some (Malformed text) => raise (ParseError text)
  | Some (Element tag attrib children) =>
      let org := attrib !! "org" in
      let course := attrib !! "course" in
      match ImportSystem_new course_dir with
      | inl e => raise e
      | inr system =>
          λ w, let '(r, (_, w')) :=
                 process_xml org course (Element tag attrib children)
                             (system, w) in
               (r, w')
      end
  end.

(** Lines 38-43: the class that the dotted name [default_class] stands
    for. *)
Definition resolve_default_class (default_class : option string)
    : Exn + option PyClass :=
  match default_class with
  | None => inr None
  | Some dotted =>
      let '(module_path, class_name) := rpartition_dot dotted in
      match import_class platform module_path class_name with
      | inl e => inl e
      | inr _ => inr (Some (mkClass module_path class_name))
      end
  end.

(** Lines 24-49.  [listing] is [os.listdir(self.data_dir)]: for every entry
    its name, whether [os.path.isdir] holds of it, and its course file.
    When the import of lines 41-42 raises, [self.default_class] has not been
    set; the store left behind shows [None] for it. *)
Definition XMLModuleStore_init (data_dir : string)
    (default_class : option string) (eager : bool)
    (listing : list (string * bool * option xml)) : (Exn + unit) * world :=
  match resolve_default_class default_class with
  | inl e => (inl e, mkWorld (mkStore eager data_dir ∅ [] None) [])
  | inr class_ =>
      (let* _ := mapM (λ entry : string * bool * option xml,
                         let '(course_dir, isdir, course_file) := entry in
                         if isdir
                         then let* _ := load_course course_dir course_file in
                              ret tt
                         else ret tt) listing in
       ret tt)
        (mkWorld (mkStore eager data_dir ∅ [] class_) [])
  end.

(** The body of the loop of lines 45-49 for one entry of the listing. *)
Definition load_entry (entry : string * bool * option xml) : M world unit :=
  let '(course_dir, isdir, course_file) := entry in
  if isdir then let* _ := load_course course_dir course_file in ret tt
  else ret tt.

(** *** Notions used to state what a load does *)

(** What lines 72-93 do with one text, before [self.eager] is consulted. *)
Definition construct (org course : option string) (xml : xml)
    : M (ImportSystem * world) XModuleDescriptor :=
  match xml with
  | Malformed text => raise (ParseError text)
  | Element tag attrib children =>
      let* attrib := allocate tag attrib in
      let* module := load_from_xml tag attrib children org course in
      let* _ := register module in
      ret module
  end.

(** A text followed by all its descendants, parents before children. *)
Fixpoint preorder (x : xml) : list xml :=
  x :: match x with
       | Malformed _ => []
       | Element _ _ children => List.flat_map preorder children
       end.

(** The texts that one call of [process_xml] on [x] hands to lines 72-93. *)
Definition visited (x : xml) : list xml :=
  match ImportSystem_eager with
  | Some true => preorder x
  | _ => [x]
  end.

(** Every slug chosen by lines 79-90 along [l] was outside [used_slugs]
    when it was chosen. *)
Fixpoint emits_fresh (self : ImportSystem) (l : list xml) : bool :=
  match l with
  | [] => true
  | Malformed _ :: _ => true
  | Element tag attrib _ :: l' =>
      let '(attrib', self') := ensure_slug tag attrib self in
      match attrib !! "slug", attrib' !! "slug" with
      | None, Some s => bool_decide (s ∉ used_slugs self)
      | _, _ => true
      end && emits_fresh self' l'
  end.

(** The slugs that lines 79-90 chose along [xs], read off the descriptors
    [ds] constructed for these texts: the elements with an explicit slug are
    skipped. *)
Fixpoint chosen_slugs (xs : list xml) (ds : list XModuleDescriptor)
    : list string :=
  match xs, ds with
  | Element _ attrib _ :: xs', d :: ds' =>
      match attrib !! "slug" with
      | None => slug (location d) :: chosen_slugs xs' ds'
      | Some _ => chosen_slugs xs' ds'
      end
  | Malformed _ :: xs', _ :: ds' => chosen_slugs xs' ds'
  | _, _ => []
  end.

(** [d] is the descriptor of the element [x]: the category is the tag, the
    children are kept as the definition, an explicit slug is the slug of the
    Location, and the attributes are those of the element with the slug
    set. *)
Definition built_from (o c : string) (x : xml) (d : XModuleDescriptor) : Prop :=
  match x with
  | Malformed _ => False
  | Element tag attrib children =>
      location d = mkLocation o c tag (slug (location d)) None ∧
      definition d = children ∧
      xml_attrib d = <["slug" := slug (location d)]> attrib ∧
      (∀ v, attrib !! "slug" = Some v → slug (location d) = v)
  end.

(** The objects constructed between two worlds. *)
Definition new_objects (w w' : world) : list XModuleDescriptor :=
  drop (length (objects w)) (objects w').

(** The computation returned instead of raising. *)
Definition returned {S A} (r : (Exn + A) * S) : bool :=
  match r.1 with inl _ => false | inr _ => true end.

(** Whether some text of the list is rejected by lxml, and the first such. *)
Fixpoint first_malformed (l : list xml) : option string :=
  match l with
  | [] => None
  | Malformed text :: _ => Some text
  | Element _ _ _ :: l' => first_malformed l'
  end.


(** The cleaned name that line 80 would take for the element is not of the
    shape of a numbered slug. *)
Definition plainly_named (x : xml) : Prop :=
  match x with
  | Malformed _ => True
  | Element _ attrib _ =>
      ∀ ch name, attrib !! "slug" = None →
                 attrib !! "name" = Some (String ch name) →
                 ¬ numbered (clean (String ch name))
  end.

(** The index obtained by registering the objects in order of construction:
    a later object replaces an earlier one with the same Location. *)
Definition index_of (l : list XModuleDescriptor)
    : gmap Location XModuleDescriptor :=
  foldl (λ m d, <[location d := d]> m) ∅ l.

(** The index of the store holds exactly the objects constructed so far. *)
Definition consistent (w : world) : Prop :=
  modules (modulestore w) = index_of (objects w).

(** The outcome of a computation without its value. *)
Definition outcome {S A} (r : (Exn + A) * S) : option Exn * S :=
  (match r.1 with inl e => Some e | inr _ => None end, r.2).

(** ** How a load proceeds *)

Lemma ImportSystem_new_inr course_dir system :
  ImportSystem_new course_dir = inr system → system = mkSystem 0 ∅.
Proof.
  unfold ImportSystem_new. destruct ImportSystem_data_dir; [|done].
  destruct (OSFS platform _); [done|]. by intros [= <-].
Qed.

(** Case analysis following the branches of lines 79-87. *)
Ltac ensure_slug_cases :=
  match goal with
  | |- context [?attrib !! "name"] =>
      destruct (attrib !! "name") as [[|??]|]
  end; simpl; repeat case_decide.

Lemma ensure_slug_explicit tag attrib self v :
  attrib !! "slug" = Some v → ensure_slug tag attrib self = (attrib, self).
Proof. intros H. unfold ensure_slug. by rewrite H. Qed.

(** The slug attribute is always present after lines 78-90. *)
Lemma ensure_slug_is_Some tag attrib self :
  is_Some ((ensure_slug tag attrib self).1 !! "slug").
Proof.
  unfold ensure_slug. destruct (attrib !! "slug") as [v|] eqn:E.
  - simpl. rewrite E. eauto.
  - ensure_slug_cases; simpl; rewrite lookup_insert_eq; eauto.
Qed.

(** Lines 78-90 only ever add to [used_slugs]. *)
Lemma ensure_slug_used_mono tag attrib self :
  used_slugs self ⊆ used_slugs (ensure_slug tag attrib self).2.
Proof.
  unfold ensure_slug. destruct (attrib !! "slug"); [done|].
  ensure_slug_cases; simpl; set_solver.
Qed.

(** A slug chosen by lines 79-90 is recorded in [used_slugs]. *)
Lemma ensure_slug_records tag attrib self s :
  attrib !! "slug" = None →
  (ensure_slug tag attrib self).1 !! "slug" = Some s →
  s ∈ used_slugs (ensure_slug tag attrib self).2.
Proof.
  intros Hnone. unfold ensure_slug. rewrite Hnone.
  ensure_slug_cases; simpl; rewrite lookup_insert_eq; intros [= <-];
    set_solver.
Qed.

(** What lines 72-93 do with an element, spelled out. *)
Lemma construct_Element org course tag attrib children sys w :
  construct org course (Element tag attrib children) (sys, w) =
  let '(attrib', sys') := ensure_slug tag attrib sys in
  match Location_new
          (mkLocationLike org course (Some tag) (attrib' !! "slug") None) with
  | inl e => (inl e, (sys', w))
  | inr loc =>
      let module := mkDescriptor (length (objects w)) loc attrib' children in
      (inr module,
       (sys', mkWorld (set_modules <[loc := module]> (modulestore w))
                      (objects w ++ [module])))
  end.
Proof.
  unfold construct, allocate, load_from_xml, register, bind, lift_exn, gets,
    modify, ret. simpl.
  destruct (ensure_slug tag attrib sys) as [attrib' sys']. simpl.
  by destruct (Location_new _).
Qed.

(** [process_xml] is lines 72-93 followed by the test of [self.eager]. *)
Lemma process_xml_Element org course tag attrib children s :
  process_xml org course (Element tag attrib children) s =
  (let* module := construct org course (Element tag attrib children) in
   match ImportSystem_eager with
   | None => raise (AttributeError "eager")
   | Some true =>
       let* _ := mapM (process_xml org course) children in ret module
   | Some false => ret module
   end) s.
Proof.
  simpl. unfold bind.
  destruct (allocate tag attrib s) as [[e|a] s1]; [done|].
  destruct (load_from_xml tag a children org course s1) as [[e|m] s2]; [done|].
  by destruct (register m s2) as [[e|[]] s3].
Qed.

#[local] Arguments process_xml : simpl never.
#[local] Arguments construct : simpl never.

Lemma mapM_app {S A B} (f : A → M S B) l1 l2 s :
  mapM f (l1 ++ l2) s =
  (let* bs1 := mapM f l1 in let* bs2 := mapM f l2 in ret (bs1 ++ bs2)%list) s.
Proof.
  revert s. induction l1 as [|a l1 IH]; intros s; simpl.
  - unfold bind, ret. by destruct (mapM f l2 s) as [[e|bs] s'].
  - unfold bind at 1. unfold bind at 2. unfold bind at 2.
    destruct (f a s) as [[e|b] s1]; [done|].
    unfold bind at 1. rewrite IH. unfold bind, ret.
    destruct (mapM f l1 s1) as [[e|bs1] s2]; [done|].
    by destruct (mapM f l2 s2) as [[e|bs2] s3].
Qed.

(** A property of the state kept by lines 72-93 is kept by every run over a
    list of texts. *)
Lemma mapM_invariant {S A B} (I : S → Prop) (f : A → M S B) l :
  Forall (λ a, ∀ s, I s → I (f a s).2) l → ∀ s, I s → I (mapM f l s).2.
Proof.
  induction 1 as [|a l Ha _ IH]; intros s Hs; simpl; [done|].
  unfold bind. specialize (Ha s Hs).
  destruct (f a s) as [[e|b] s1]; simpl in *; [done|].
  specialize (IH s1 Ha). unfold ret.
  by destruct (mapM f l s1) as [[e|bs] s2].
Qed.

(** A property of the state kept by lines 72-93 is kept by [process_xml],
    however it ends. *)
Lemma process_xml_invariant org course (I : ImportSystem * world → Prop) :
  (∀ x s, I s → I (construct org course x s).2) →
  ∀ x s, I s → I (process_xml org course x s).2.
Proof.
  intros Hstep x.
  induction x as [text|tag attrib children IH] using xml_ind; intros s Hs.
  - done.
  - rewrite process_xml_Element. unfold bind.
    specialize (Hstep (Element tag attrib children) s Hs).
    destruct (construct org course (Element tag attrib children) s)
      as [[e|m] s1]; simpl in *; [done|].
    destruct ImportSystem_eager as [[]|]; [|done..].
    unfold bind, ret.
    pose proof (mapM_invariant I (process_xml org course) children IH s1 Hstep)
      as Hall.
    by destruct (mapM (process_xml org course) children s1) as [[e|ds] s2].
Qed.

Lemma outcome_bind {S A B} (c : M S A) (k : A → M S B) s :
  outcome (bind c k s) =
  match c s with
  | (inl e, s') => (Some e, s')
  | (inr a, s') => outcome (k a s')
  end.
Proof. unfold bind. by destruct (c s) as [[e|a] s']. Qed.

(** Binding a computation whose value is ignored depends on its outcome
    only. *)
Lemma bind_outcome_eq {S A A' B} (c : M S A) (c' : M S A') (k : M S B) s :
  outcome (c s) = outcome (c' s) →
  (let* _ := c in k) s = (let* _ := c' in k) s.
Proof.
  unfold outcome, bind.
  destruct (c s) as [[e|a] s1], (c' s) as [[e'|a'] s1']; simpl; congruence.
Qed.

Lemma preorder_unfold x : preorder x = x :: tail (preorder x).
Proof. by destruct x. Qed.

Section Eager.

Hypothesis Heager : ImportSystem_eager = Some true.
#[local] Set Default Proof Using "Type Heager".

Variables org course : option string.

Lemma mapM_process_xml_flat children :
  Forall (λ c, ∀ s,
    process_xml org course c s =
    (let* module := construct org course c in
     let* _ := mapM (construct org course) (tail (preorder c)) in
     ret module) s) children →
  ∀ s, outcome (mapM (process_xml org course) children s) =
       outcome (mapM (construct org course)
                     (List.flat_map preorder children) s).
Proof.
  induction 1 as [|c children Hc _ IH]; intros s; [done|].
  cbn [List.flat_map]. rewrite (preorder_unfold c), mapM_app. cbn [mapM].
  rewrite !outcome_bind, Hc. unfold bind at 1 2 4 5.
  destruct (construct org course c s) as [[e|m] s1]; [done|].
  destruct (mapM (construct org course) (tail (preorder c)) s1)
    as [[e|ds] s2]; [done|].
  unfold ret at 1 3. rewrite !outcome_bind. specialize (IH s2).
  unfold outcome in IH.
  destruct (mapM (process_xml org course) children s2) as [[e|ms] s3],
    (mapM (construct org course) (List.flat_map preorder children) s2)
    as [[e'|ds'] s3']; simpl in IH; by simplify_eq.
Qed.

(** With [self.eager] true, [process_xml] runs lines 72-93 on the text and
    then on each of its descendants, parents before children, and stops at
    the first exception. *)
Lemma process_xml_eager x s :
  process_xml org course x s =
  (let* module := construct org course x in
   let* _ := mapM (construct org course) (tail (preorder x)) in
   ret module) s.
Proof.
  revert s. induction x as [text|tag attrib children IH] using xml_ind;
    intros s; [done|].
  rewrite process_xml_Element, Heager. unfold bind at 1 3.
  destruct (construct org course (Element tag attrib children) s)
    as [[e|m] s1]; [done|].
  apply bind_outcome_eq. cbn [preorder tail].
  by apply mapM_process_xml_flat.
Qed.

Lemma process_xml_eager_outcome x s :
  outcome (process_xml org course x s) =
  outcome (mapM (construct org course) (preorder x) s).
Proof.
  rewrite process_xml_eager, (preorder_unfold x). cbn [mapM tail].
  rewrite !outcome_bind.
  destruct (construct org course x s) as [[e|m] s1]; [done|].
  rewrite !outcome_bind.
  by destruct (mapM (construct org course) (tail (preorder x)) s1)
    as [[e|ds] s2].
Qed.

End Eager.

Lemma mapM_cons_inr {S A B} (f : A → M S B) a l s bs s' :
  mapM f (a :: l) s = (inr bs, s') →
  ∃ b bs' s1, f a s = (inr b, s1) ∧ mapM f l s1 = (inr bs', s') ∧
              bs = b :: bs'.
Proof.
  cbn [mapM]. unfold bind, ret.
  destruct (f a s) as [[e|b] s1]; [done|].
  destruct (mapM f l s1) as [[e|bs'] s2] eqn:Hl; [done|].
  intros [= <- <-]. by exists b, bs', s1.
Qed.

(** A successful run of [process_xml] is a successful run of lines 72-93
    over the visited texts, the root first. *)
Lemma process_xml_visited org course x s d s' :
  process_xml org course x s = (inr d, s') →
  ∃ ds, mapM (construct org course) (visited x) s = (inr (d :: ds), s').
Proof.
  unfold visited. destruct ImportSystem_eager as [[]|] eqn:Heager.
  - rewrite (process_xml_eager Heager), (preorder_unfold x).
    cbn [mapM tail]. unfold bind, ret.
    destruct (construct org course x s) as [[e|m] s1]; [done|].
    destruct (mapM (construct org course) (tail (preorder x)) s1)
      as [[e|ds] s2]; [done|].
    intros [= <- <-]. by exists ds.
  - destruct x as [text|tag attrib children]; [done|].
    rewrite process_xml_Element, Heager. cbn [mapM]. unfold bind, ret.
    destruct (construct org course (Element tag attrib children) s)
      as [[e|m] s1]; [done|].
    intros [= <- <-]. by exists [].
  - destruct x as [text|tag attrib children]; [done|].
    rewrite process_xml_Element, Heager. unfold bind, raise.
    by destruct (construct org course (Element tag attrib children) s)
      as [[e|m] s1].
Qed.

(** What a successful run of lines 72-93 has done. *)
Lemma construct_inr org course x sys w d sys' w' :
  construct org course x (sys, w) = (inr d, (sys', w')) →
  ∃ tag attrib children o c s,
    x = Element tag attrib children ∧ org = Some o ∧ course = Some c ∧
    ensure_slug tag attrib sys = (xml_attrib d, sys') ∧
    xml_attrib d !! "slug" = Some s ∧
    d = mkDescriptor (length (objects w)) (mkLocation o c tag s None)
                     (xml_attrib d) children ∧
    w' = mkWorld (set_modules <[location d := d]> (modulestore w))
                 (objects w ++ [d]).
Proof.
  destruct x as [text|tag attrib children]; [done|].
  rewrite construct_Element.
  destruct (ensure_slug tag attrib sys) as [attrib' sys1] eqn:Hslug.
  unfold Location_new. simpl.
  destruct org as [o|], course as [c|], (attrib' !! "slug") as [s|] eqn:Hs;
    try done.
  intros [= <- <- <-]. by exists tag, attrib, children, o, c, s.
Qed.

(** Lines 72-93 succeed on every element once [org] and [course] are
    there. *)
Lemma construct_Element_inr o c tag attrib children s :
  ∃ d s', construct (Some o) (Some c) (Element tag attrib children) s
          = (inr d, s').
Proof.
  destruct s as [sys w]. rewrite construct_Element.
  pose proof (ensure_slug_is_Some tag attrib sys) as [v Hv].
  destruct (ensure_slug tag attrib sys) as [attrib' sys1]. simpl in Hv.
  unfold Location_new. simpl. rewrite Hv. eauto.
Qed.

(** The state after lines 72-93, however they end: the store keeps its
    fields other than [modules], and objects are only added. *)
Lemma construct_frame org course x s :
  let s' := (construct org course x s).2 in
  eager (modulestore s'.2) = eager (modulestore s.2) ∧
  data_dir (modulestore s'.2) = data_dir (modulestore s.2) ∧
  courses (modulestore s'.2) = courses (modulestore s.2) ∧
  default_class (modulestore s'.2) = default_class (modulestore s.2) ∧
  dom (modules (modulestore s.2)) ⊆ dom (modules (modulestore s'.2)) ∧
  objects s.2 `prefix_of` objects s'.2.
Proof.
  destruct s as [sys w], x as [text|tag attrib children].
  - by repeat split.
  - rewrite construct_Element.
    destruct (ensure_slug tag attrib sys) as [attrib' sys1].
    destruct (Location_new _) as [e|loc]; simpl; [by repeat split|].
    repeat split; [set_solver|by apply prefix_app_r].
Qed.

(** ** The index and the objects *)

Lemma index_of_snoc l d : index_of (l ++ [d]) = <[location d := d]> (index_of l).
Proof. unfold index_of. by rewrite foldl_snoc. Qed.

(** An object is found under its Location unless a later one took it. *)
Lemma index_of_lookup_latest l i d :
  l !! i = Some d →
  (∀ j d', i < j → l !! j = Some d' → location d' ≠ location d) →
  index_of l !! location d = Some d.
Proof.
  revert i d. induction l as [|d0 l IH] using rev_ind; intros i d Hi Hlater.
  - done.
  - rewrite index_of_snoc.
    destruct (decide (i = length l)) as [->|Hne].
    + rewrite list_lookup_middle in Hi by done. injection Hi as ->.
      by rewrite lookup_insert_eq.
    + assert (i < length l) as Hlt.
      { apply lookup_lt_Some in Hi. rewrite length_app in Hi. simpl in Hi.
        lia. }
      rewrite lookup_app_l in Hi by done.
      rewrite lookup_insert_ne.
      * apply (IH i); [done|]. intros j d' Hij Hj.
        apply (Hlater j); [done|]. rewrite lookup_app_l; [done|].
        by apply lookup_lt_Some in Hj.
      * apply (Hlater (length l)); [done|]. by rewrite list_lookup_middle.
Qed.

(** Nothing is found under a Location that no object has. *)
Lemma index_of_lookup_None l loc :
  (∀ d, d ∈ l → location d ≠ loc) → index_of l !! loc = None.
Proof.
  induction l as [|d0 l IH] using rev_ind; intros Hl; [done|].
  rewrite index_of_snoc, lookup_insert_ne.
  - apply IH. intros d Hd. apply Hl. set_solver.
  - apply Hl. set_solver.
Qed.

(** Whatever is found under a Location is an object with that Location. *)
Lemma index_of_lookup_Some l loc d :
  index_of l !! loc = Some d → d ∈ l ∧ location d = loc.
Proof.
  induction l as [|d0 l IH] using rev_ind; [done|].
  rewrite index_of_snoc. destruct (decide (location d0 = loc)) as [<-|Hne].
  - rewrite lookup_insert_eq. intros [= <-]. split; [|done].
    apply elem_of_app. right. by apply list_elem_of_singleton.
  - rewrite lookup_insert_ne by done. intros Hd.
    destruct (IH Hd) as [Hin Hloc]. split; [|done].
    apply elem_of_app. by left.
Qed.

Lemma construct_consistent org course x s :
  consistent s.2 → consistent (construct org course x s).2.2.
Proof.
  destruct s as [sys w], x as [text|tag attrib children]; [done|].
  rewrite construct_Element. unfold consistent.
  destruct (ensure_slug tag attrib sys) as [attrib' sys1].
  destruct (Location_new _) as [e|loc]; simpl; [done|].
  intros ->. by rewrite index_of_snoc.
Qed.

Lemma process_xml_consistent org course x s :
  consistent s.2 → consistent (process_xml org course x s).2.2.
Proof.
  apply (process_xml_invariant org course (λ s, consistent s.2)).
  intros. by apply construct_consistent.
Qed.

Lemma load_course_consistent course_dir course_file w :
  consistent w → consistent (load_course course_dir course_file w).2.
Proof.
  intros Hw. unfold load_course.
  destruct course_file as [[text|tag attrib children]|]; [done| |done].
  destruct (ImportSystem_new course_dir) as [e|system] eqn:Hnew; [done|].
  apply ImportSystem_new_inr in Hnew as ->.
  pose proof (process_xml_consistent (attrib !! "org") (attrib !! "course")
                (Element tag attrib children) (mkSystem 0 ∅, w) Hw) as H.
  by destruct (process_xml _ _ _ _) as [r [sys' w']].
Qed.

(** The store built by [__init__] is consistent, however the loads end. *)
Lemma XMLModuleStore_init_consistent data_dir default_class eager listing :
  consistent (XMLModuleStore_init data_dir default_class eager listing).2.
Proof.
  unfold XMLModuleStore_init.
  destruct (resolve_default_class default_class) as [e|class_]; [done|].
  set (f := λ entry : string * bool * option xml, _).
  set (w0 := mkWorld _ _).
  assert (consistent (mapM f listing w0).2) as H.
  { apply (mapM_invariant consistent); [|done].
    apply Forall_forall. intros [[name isdir] course_file] _ w Hw.
    subst f. simpl. destruct isdir; [|done].
    pose proof (load_course_consistent name course_file w Hw) as H.
    unfold bind, ret.
    by destruct (load_course name course_file w) as [[e|d] w']. }
  unfold bind, ret. by destruct (mapM f listing w0) as [[e|u] w'].
Qed.

(** ** One call of [process_xml] *)

Lemma process_xml_objects_prefix org course x s :
  objects s.2 `prefix_of` objects (process_xml org course x s).2.2.
Proof.
  apply (process_xml_invariant org course
           (λ s', objects s.2 `prefix_of` objects s'.2)); [|done].
  intros x' s1 Hs1. etrans; [exact Hs1|]. apply construct_frame.
Qed.

Lemma process_xml_used_mono org course x s :
  used_slugs s.1 ⊆ used_slugs (process_xml org course x s).2.1.
Proof.
  apply (process_xml_invariant org course
           (λ s', used_slugs s.1 ⊆ used_slugs s'.1)); [|done].
  intros [text|tag attrib children] [sys1 w1] Hs1; [done|].
  rewrite construct_Element.
  pose proof (ensure_slug_used_mono tag attrib sys1) as Hmono.
  destruct (ensure_slug tag attrib sys1) as [attrib' sys2].
  simpl in *. destruct (Location_new _); simpl; set_solver.
Qed.

(** The state in which [process_xml] ends is one that a run over its
    children reaches from the state after lines 72-93. *)
Lemma process_xml_after_construct org course tag attrib children s
    (I : ImportSystem * world → Prop) :
  (∀ x s, I s → I (construct org course x s).2) →
  I (construct org course (Element tag attrib children) s).2 →
  I (process_xml org course (Element tag attrib children) s).2.
Proof.
  intros Hstep H1. rewrite process_xml_Element. unfold bind.
  destruct (construct org course (Element tag attrib children) s)
    as [[e|m] s1]; simpl in *; [done|].
  destruct ImportSystem_eager as [[]|]; [|done..].
  unfold bind, ret.
  assert (I (mapM (process_xml org course) children s1).2) as Hall.
  { apply mapM_invariant; [|done]. apply Forall_forall. intros x _.
    by apply process_xml_invariant. }
  by destruct (mapM (process_xml org course) children s1) as [[e|ds] s2].
Qed.

(** The descriptor that a call of [process_xml] on an element constructs:
    it is the next object, it carries the slug left by lines 78-90, and it
    is what the call returns when it returns. *)
Lemma process_xml_node o c tag attrib children sys w :
  let attrib' := (ensure_slug tag attrib sys).1 in
  let run := process_xml (Some o) (Some c) (Element tag attrib children)
                         (sys, w) in
  ∃ v, attrib' !! "slug" = Some v ∧
    let module := mkDescriptor (length (objects w)) (mkLocation o c tag v None)
                               attrib' children in
    objects run.2.2 !! length (objects w) = Some module ∧
    location module ∈ dom (modules (modulestore run.2.2)) ∧
    (∀ d, run.1 = inr d → d = module).
Proof.
  intros attrib' run.
  pose proof (ensure_slug_is_Some tag attrib sys) as [v Hv].
  exists v. split; [done|]. intros module.
  assert (construct (Some o) (Some c) (Element tag attrib children) (sys, w)
          = (inr module,
             ((ensure_slug tag attrib sys).2,
              mkWorld (set_modules <[location module := module]>
                                   (modulestore w))
                      (objects w ++ [module])))) as Hc.
  { rewrite construct_Element. subst module attrib'.
    destruct (ensure_slug tag attrib sys) as [a sys1]. simpl in *.
    unfold Location_new. simpl. by rewrite Hv. }
  split; [|split].
  - subst run.
    apply (process_xml_after_construct _ _ _ _ _ _
             (λ s', objects s'.2 !! length (objects w) = Some module)).
    + intros x s1 Hs1. eapply prefix_lookup_Some; [exact Hs1|].
      apply construct_frame.
    + rewrite Hc. simpl. by rewrite list_lookup_middle.
  - subst run.
    apply (process_xml_after_construct _ _ _ _ _ _
             (λ s', location module ∈ dom (modules (modulestore s'.2)))).
    + intros x s1 Hs1. by apply construct_frame.
    + rewrite Hc. simpl. set_solver.
  - subst run. rewrite process_xml_Element. unfold bind. rewrite Hc.
    destruct ImportSystem_eager as [[]|]; [|by intros d [= <-]|done].
    unfold bind, ret.
    destruct (mapM _ children _) as [[e|ds] s2]; [done|]. by intros d [= <-].
Qed.

(** ** Slug allocation *)

(** Lines 81-89 for an element that has no usable name. *)
Lemma ensure_slug_unnamed tag attrib self :
  attrib !! "slug" = None →
  attrib !! "name" = None ∨ attrib !! "name" = Some EmptyString →
  let count := S (unnamed_modules self) in
  let candidate := tag +:+ "_" +:+ pretty count in
  ensure_slug tag attrib self =
  if decide (candidate ∈ used_slugs self) then
    let slug := candidate +:+ "_" +:+ pretty (S count) in
    (<["slug" := slug]> attrib,
     mkSystem (S count) ({[slug]} ∪ used_slugs self))
  else
    (<["slug" := candidate]> attrib,
     mkSystem count ({[candidate]} ∪ used_slugs self)).
Proof.
  intros Hslug Hname. unfold ensure_slug. rewrite Hslug.
  destruct Hname as [-> | ->]; simpl; by case_decide.
Qed.

(** C3, as amended: an element that carries an explicit slug attribute keeps
    it.  Lines 78-90 return the attributes and the allocator unchanged, so
    the counter and the set of used slugs stay as they were and the value is
    not recorded as used; the descriptor constructed for the element has
    exactly that value as the slug of its Location. *)
Theorem C3_explicit_slug_preserved o c tag attrib children v sys w :
  attrib !! "slug" = Some v →
  ensure_slug tag attrib sys = (attrib, sys) ∧
  let run := process_xml (Some o) (Some c) (Element tag attrib children)
                         (sys, w) in
  let module := mkDescriptor (length (objects w)) (mkLocation o c tag v None)
                             attrib children in
  objects run.2.2 !! length (objects w) = Some module ∧
  (∀ d, run.1 = inr d → d = module ∧ slug (location d) = v).
Proof.
  intros Hv. pose proof (ensure_slug_explicit tag attrib sys v Hv) as Hens.
  split; [done|].
  destruct (process_xml_node o c tag attrib children sys w)
    as (v' & Hv' & Hobj & _ & Hret).
  rewrite Hens in Hv', Hobj, Hret. simpl in *.
  rewrite Hv in Hv'. injection Hv' as <-.
  split; [done|]. intros d Hd. by rewrite (Hret d Hd).
Qed.

Lemma pretty_1 : pretty 1%nat = "1".
Proof. reflexivity. Qed.

Lemma pretty_2 : pretty 2%nat = "2".
Proof. reflexivity. Qed.

(** ** Runs of lines 72-93 over a list of texts *)

(** The objects, the index and the allocator after a successful run. *)
Lemma construct_run o c l : ∀ sys w ds sys' w',
  mapM (construct (Some o) (Some c)) l (sys, w) = (inr ds, (sys', w')) →
  objects w' = objects w ++ ds ∧
  Forall2 (built_from o c) l ds ∧
  Forall (λ d, location d ∈ dom (modules (modulestore w'))) ds ∧
  dom (modules (modulestore w)) ⊆ dom (modules (modulestore w')) ∧
  used_slugs sys ⊆ used_slugs sys'.
Proof.
  induction l as [|x l IH]; intros sys w ds sys' w' Hrun.
  - injection Hrun as <- <- <-. by rewrite app_nil_r.
  - apply mapM_cons_inr in Hrun as (d & ds' & [sys1 w1] & Hx & Hl & ->).
    apply construct_inr in Hx
      as (tag & attrib & children & o' & c' & s & -> & [= <-] & [= <-]
          & Hslug & Hs & Hd & ->).
    destruct (IH _ _ _ _ _ Hl) as (Hobj & Hbuilt & Hreg & Hdom & Hused).
    simpl in *. split_and!.
    + by rewrite Hobj, <-app_assoc.
    + constructor; [|done]. rewrite Hd. simpl. split_and!; [done..| |].
      * pose proof Hslug as Hslug'. unfold ensure_slug in Hslug'.
        destruct (attrib !! "slug") as [v|] eqn:Hv.
        -- injection Hslug' as Ha _. rewrite <-Ha in Hs |- *.
           rewrite Hv in Hs. injection Hs as ->. by rewrite insert_id.
        -- revert Hslug' Hs; ensure_slug_cases; intros [= <- _];
             rewrite lookup_insert_eq; by intros [= <-].
      * intros v Hv. rewrite (ensure_slug_explicit _ _ _ _ Hv) in Hslug.
        injection Hslug as Ha _. rewrite <-Ha, Hv in Hs. by injection Hs.
    + constructor; [|done]. apply Hdom. set_solver.
    + set_solver.
    + pose proof (ensure_slug_used_mono tag attrib sys) as Hmono.
      rewrite Hslug in Hmono. set_solver.
Qed.

(** When every chosen slug was free when it was chosen, the chosen slugs are
    pairwise distinct, new, and recorded. *)
Lemma construct_run_chosen o c l : ∀ sys w ds sys' w',
  mapM (construct (Some o) (Some c)) l (sys, w) = (inr ds, (sys', w')) →
  emits_fresh sys l = true →
  NoDup (chosen_slugs l ds) ∧
  ∀ s, s ∈ chosen_slugs l ds → s ∈ used_slugs sys' ∧ s ∉ used_slugs sys.
Proof.
  induction l as [|x l IH]; intros sys w ds sys' w' Hrun Hfresh.
  - injection Hrun as <- <- <-. split; [constructor|]. by intros s ?%elem_of_nil.
  - pose proof Hrun as Hall.
    apply mapM_cons_inr in Hrun as (d & ds' & [sys1 w1] & Hx & Hl & ->).
    apply construct_inr in Hx
      as (tag & attrib & children & o' & c' & s & -> & [= <-] & [= <-]
          & Hslug & Hs & Hd & ->).
    cbn [emits_fresh] in Hfresh. rewrite Hslug, Hs in Hfresh.
    apply andb_true_iff in Hfresh as [Hhere Hrest].
    destruct (IH _ _ _ _ _ Hl Hrest) as (Hnodup & Hin).
    pose proof (ensure_slug_used_mono tag attrib sys) as Hmono.
    rewrite Hslug in Hmono. simpl in Hmono.
    cbn [chosen_slugs].
    destruct (attrib !! "slug") as [v|] eqn:Hv.
    + split; [done|]. intros s' Hs'. destruct (Hin s' Hs'). set_solver.
    + apply bool_decide_eq_true in Hhere.
      assert (slug (location d) = s) as -> by (by rewrite Hd).
      pose proof (ensure_slug_records tag attrib sys s Hv) as Hrec.
      rewrite Hslug in Hrec. specialize (Hrec Hs). simpl in Hrec.
      apply (construct_run o c) in Hl as (_ & _ & _ & _ & Hused).
      split.
      * constructor; [|done]. intros Hs'. by destruct (Hin s Hs').
      * intros s' [->|Hs']%elem_of_cons; [set_solver|].
        destruct (Hin s' Hs'). set_solver.
Qed.

(** ** The load of a course *)

(** A load that returns has run [process_xml] on the root element with the
    org and course read from it and a fresh allocator, and that is a run of
    lines 72-93 over the visited texts. *)
Lemma load_course_returned course_dir x w :
  returned (load_course course_dir (Some x) w) = true →
  ∃ o c root ds sys',
    mapM (construct (Some o) (Some c)) (visited x) (mkSystem 0 ∅, w)
    = (inr (root :: ds), (sys', (load_course course_dir (Some x) w).2)) ∧
    (load_course course_dir (Some x) w).1 = inr root ∧
    match x with
    | Malformed _ => False
    | Element _ attrib _ =>
        attrib !! "org" = Some o ∧ attrib !! "course" = Some c
    end.
Proof.
  unfold returned, load_course.
  destruct x as [text|tag attrib children]; [done|].
  destruct (ImportSystem_new course_dir) as [e|system] eqn:Hnew; [done|].
  apply ImportSystem_new_inr in Hnew as ->.
  destruct (process_xml _ _ _ _) as [[e|root] [sys' w']] eqn:Hrun; [done|].
  intros _. simpl.
  destruct (process_xml_visited _ _ _ _ _ _ Hrun) as [ds Hds].
  pose proof Hds as Hds'. unfold visited in Hds'.
  assert (∃ d s1,
    construct (attrib !! "org") (attrib !! "course")
      (Element tag attrib children) (mkSystem 0 ∅, w) = (inr d, s1))
    as (d & [sys1 w1] & Hroot).
  { destruct ImportSystem_eager as [[]|];
      [rewrite preorder_unfold in Hds'|..];
      apply mapM_cons_inr in Hds' as (d & ds' & s1 & Hd & _); eauto. }
  apply construct_inr in Hroot
    as (_ & _ & _ & o & c & _ & _ & Ho & Hc & _).
  exists o, c, root, ds, sys'. by rewrite <-Ho, <-Hc.
Qed.

Lemma load_course_Element course_dir tag attrib children system w :
  ImportSystem_new course_dir = inr system →
  load_course course_dir (Some (Element tag attrib children)) w =
  let run := process_xml (attrib !! "org") (attrib !! "course")
                         (Element tag attrib children) (mkSystem 0 ∅, w) in
  (run.1, run.2.2).
Proof.
  intros Hnew. unfold load_course. rewrite Hnew.
  apply ImportSystem_new_inr in Hnew as ->.
  by destruct (process_xml _ _ _ _) as [r [sys' w']].
Qed.

(** ** Lookups *)

Lemma Location_new_to_like loc : Location_new (to_like loc) = inr loc.
Proof. by destruct loc. Qed.

Lemma get_item_lookup like loc self :
  Location_new like = inr loc →
  get_item like self =
  match modules self !! loc with
  | Some module => (inr module, self)
  | None => (inl (ItemNotFoundError loc), self)
  end.
Proof.
  intros Hloc. unfold get_item, bind, lift_exn, gets. rewrite Hloc.
  by destruct (modules self !! loc).
Qed.

(** C5, as amended: after the load of a course, [get_item] on the Location
    of a node returns the node most recently registered under that
    Location, which is the node itself whenever no node constructed after it
    has the same Location; [get_item] on a well-specified Location that no
    constructed node has raises ItemNotFoundError.  The store is one whose
    index holds the nodes constructed so far, as the store built by
    [__init__] does. *)
Theorem C5_lookup_round_trip course_dir course_file w :
  consistent w →
  let w' := (load_course course_dir course_file w).2 in
  (∀ i d, objects w' !! i = Some d →
     (∀ j d', i < j → objects w' !! j = Some d' →
              location d' ≠ location d) →
     get_item (to_like (location d)) (modulestore w')
     = (inr d, modulestore w')) ∧
  (∀ like loc, Location_new like = inr loc →
     (∀ d, d ∈ objects w' → location d ≠ loc) →
     get_item like (modulestore w')
     = (inl (ItemNotFoundError loc), modulestore w')).
Proof.
  intros Hw w'.
  pose proof (load_course_consistent course_dir course_file w Hw) as Hw'.
  fold w' in Hw'.
  unfold consistent in Hw'. split.
  - intros i d Hi Hlater.
    rewrite (get_item_lookup _ _ _ (Location_new_to_like _)), Hw'.
    by rewrite (index_of_lookup_latest _ i d).
  - intros like loc Hloc Hnone.
    rewrite (get_item_lookup _ _ _ Hloc), Hw'.
    by rewrite index_of_lookup_None.
Qed.

(** ** Synthesized slugs are told apart by their number *)

Lemma pretty_N_go_no_underscore x s :
  no_underscore s = true → no_underscore (pretty_N_go x s) = true.
Proof.
  revert s. induction (N.lt_wf_0 x) as [x _ IH]; intros s Hs.
  destruct (decide (0 < x)%N) as [Hpos|Hzero].
  - rewrite pretty_N_go_step by done. apply IH; [by apply N.div_lt|].
    simpl. rewrite Hs. unfold pretty_N_char. by repeat case_match.
  - by replace x with 0%N by lia.
Qed.

(** The decimal numeral of a counter value holds no underscore. *)
Lemma pretty_nat_no_underscore (n : nat) : no_underscore (pretty n) = true.
Proof.
  unfold pretty, pretty_nat, pretty, pretty_N. case_decide; [done|].
  by apply pretty_N_go_no_underscore.
Qed.

Lemma append_cons c a s : String c a +:+ s = String c (a +:+ s).
Proof. done. Qed.

Lemma no_underscore_append a d :
  no_underscore (a +:+ String "_" d) = false.
Proof.
  induction a as [|c a IH]; [done|].
  rewrite append_cons. simpl. rewrite IH. apply andb_false_r.
Qed.

(** What follows the last underscore is determined by the string. *)
Lemma numeral_after_underscore a b d1 d2 :
  no_underscore d1 = true → no_underscore d2 = true →
  a +:+ String "_" d1 = b +:+ String "_" d2 → d1 = d2.
Proof.
  intros Hd1 Hd2. revert b.
  induction a as [|c a IH]; intros [|c' b] Heq.
  - by injection Heq.
  - rewrite append_cons in Heq. injection Heq as _ Heq.
    change (d1 = b +:+ String "_" d2) in Heq.
    rewrite Heq, no_underscore_append in Hd1. done.
  - rewrite append_cons in Heq. injection Heq as _ Heq.
    change (a +:+ String "_" d1 = d2) in Heq.
    rewrite <-Heq, no_underscore_append in Hd2. done.
  - rewrite !append_cons in Heq. injection Heq as _ Heq. by apply (IH b).
Qed.

Lemma numbered_slug_inj t1 t2 (n m : nat) :
  t1 +:+ "_" +:+ pretty n = t2 +:+ "_" +:+ pretty m → n = m.
Proof.
  intros Heq. apply (inj pretty).
  apply (numeral_after_underscore t1 t2);
    [apply pretty_nat_no_underscore..|exact Heq].
Qed.

(** ** Loads without names *)

(** For an unnamed element whose allocator holds numbered slugs only, line 83
    writes a slug that is free: the retry of lines 85-87 is not taken. *)
Lemma ensure_slug_numbered tag attrib children self :
  numbered_so_far self →
  unnamed (Element tag attrib children) →
  let count := S (unnamed_modules self) in
  let slug := tag +:+ "_" +:+ pretty count in
  ensure_slug tag attrib self
  = (<["slug" := slug]> attrib, mkSystem count ({[slug]} ∪ used_slugs self)) ∧
  numbered_so_far (mkSystem count ({[slug]} ∪ used_slugs self)).
Proof.
  intros Hnum [Hslug Hname] count slug.
  assert (slug ∉ used_slugs self) as Hfree.
  { intros (t & k & Heq & Hk)%Hnum.
    apply numbered_slug_inj in Heq. subst count. lia. }
  split.
  - rewrite ensure_slug_unnamed by done. fold count slug.
    by rewrite decide_False.
  - intros s [->%elem_of_singleton|(t & k & -> & Hk)%Hnum]%elem_of_union.
    + by exists tag, count.
    + exists t, k. split; [done|]. simpl. lia.
Qed.

Lemma construct_run_unnamed o c l : ∀ sys w ds sys' w',
  mapM (construct (Some o) (Some c)) l (sys, w) = (inr ds, (sys', w')) →
  Forall unnamed l →
  numbered_so_far sys →
  (λ d, slug (location d)) <$> ds = synthesized (unnamed_modules sys) l ∧
  unnamed_modules sys' = unnamed_modules sys + length l.
Proof.
  induction l as [|x l IH]; intros sys w ds sys' w' Hrun Hall Hnum.
  - injection Hrun as <- <- <-. simpl. by rewrite Nat.add_0_r.
  - apply mapM_cons_inr in Hrun as (d & ds' & [sys1 w1] & Hx & Hl & ->).
    apply construct_inr in Hx
      as (tag & attrib & children & o' & c' & s & -> & [= <-] & [= <-]
          & Hslug & Hs & Hd & ->).
    apply Forall_cons in Hall as [Hx Hall].
    destruct (ensure_slug_numbered tag attrib children sys Hnum Hx)
      as [Hens Hnum1].
    rewrite Hens in Hslug. injection Hslug as Hattrib <-.
    rewrite <-Hattrib, lookup_insert_eq in Hs. injection Hs as <-.
    destruct (IH _ _ _ _ _ Hl Hall Hnum1) as [Hslugs Hcount].
    cbn [unnamed_modules] in Hslugs, Hcount.
    rewrite fmap_cons, Hslugs, Hcount, Hd.
    cbn [synthesized tag_of length location slug]. split; [done|lia].
Qed.

Lemma synthesized_numbered n l s :
  s ∈ synthesized n l →
  ∃ (t : string) (k : nat), s = t +:+ "_" +:+ pretty k ∧ n < k.
Proof.
  revert n. induction l as [|x l IH]; intros n; simpl.
  - by intros ?%elem_of_nil.
  - intros [->|Hs]%elem_of_cons.
    + exists (tag_of x), (S n). split; [done|lia].
    + destruct (IH _ Hs) as (t & k & -> & Hk). exists t, k. split; [done|lia].
Qed.

(** The synthesized slugs of a run differ pairwise, whatever the tags. *)
Lemma NoDup_synthesized n l : NoDup (synthesized n l).
Proof.
  revert n. induction l as [|x l IH]; intros n; simpl; constructor; [|done].
  intros (t & k & Heq & Hk)%synthesized_numbered.
  apply numbered_slug_inj in Heq. lia.
Qed.

(** In a course where no visited element has a slug or a name, the k-th
    element visited gets the slug "{tag}_{k}", and no two nodes of the load
    share a slug, whatever their tags. *)
Theorem unnamed_course_slugs course_dir x w :
  returned (load_course course_dir (Some x) w) = true →
  Forall unnamed (visited x) →
  (λ d, slug (location d)) <$>
    new_objects w (load_course course_dir (Some x) w).2 = synthesized 0 (visited x) ∧
  NoDup ((λ d, slug (location d)) <$>
           new_objects w (load_course course_dir (Some x) w).2).
Proof.
  intros Hret Hall.
  destruct (load_course_returned course_dir x w Hret)
    as (o & c & root & ds & sys' & Hrun & _ & _).
  destruct (construct_run _ _ _ _ _ _ _ _ Hrun) as (Hobj & _).
  assert (numbered_so_far (mkSystem 0 ∅)) as Hnum.
  { by intros s ?%elem_of_empty. }
  destruct (construct_run_unnamed _ _ _ _ _ _ _ _ Hrun Hall Hnum)
    as [Hslugs _].
  unfold new_objects. rewrite Hobj, drop_app_length, Hslugs.
  split; [done|]. apply NoDup_synthesized.
Qed.

(** ** More on lines 78-90 *)

Lemma ensure_slug_step tag attrib self :
  ∃ s, (ensure_slug tag attrib self).1 = <["slug" := s]> attrib ∧
    used_slugs (ensure_slug tag attrib self).2
    = match attrib !! "slug" with
      | Some _ => used_slugs self
      | None => {[s]} ∪ used_slugs self
      end ∧
    (unnamed_modules self ≤ unnamed_modules (ensure_slug tag attrib self).2
     ∧ unnamed_modules (ensure_slug tag attrib self).2
       ≤ unnamed_modules self + 2)%nat.
Proof.
  unfold ensure_slug. destruct (attrib !! "slug") as [v|] eqn:Hv.
  - exists v. simpl. rewrite insert_id by done. split_and!; [done..|lia].
  - ensure_slug_cases; simpl; eexists; split_and!; try done; lia.
Qed.

(** Lines 78-90 touch nothing but the slug: the other attributes stay, the
    counter goes up by at most two, and the set of used slugs gains exactly
    the slug that was chosen, or nothing when the slug was explicit. *)
Theorem ensure_slug_frame tag attrib self :
  ∃ s, (ensure_slug tag attrib self).1 = <["slug" := s]> attrib ∧
    used_slugs (ensure_slug tag attrib self).2
    = match attrib !! "slug" with
      | Some _ => used_slugs self
      | None => {[s]} ∪ used_slugs self
      end ∧
    (unnamed_modules self ≤ unnamed_modules (ensure_slug tag attrib self).2
     ∧ unnamed_modules (ensure_slug tag attrib self).2
       ≤ unnamed_modules self + 2)%nat.
Proof.
  unfold ensure_slug. destruct (attrib !! "slug") as [v|] eqn:Hv.
  - exists v. simpl. rewrite insert_id by done. split_and!; [done..|lia].
  - ensure_slug_cases; simpl; eexists; split_and!; try done; lia.
Qed.

(** An element that went through lines 78-90 goes through them unchanged
    the next time, whatever the allocator holds then: its slug is kept, and
    neither the counter nor the set of used slugs moves. *)
Theorem ensure_slug_idempotent tag tag' attrib self self' :
  ensure_slug tag' (ensure_slug tag attrib self).1 self'
  = ((ensure_slug tag attrib self).1, self').
Proof.
  destruct (ensure_slug_is_Some tag attrib self) as [v Hv].
  by apply (ensure_slug_explicit _ _ _ v).
Qed.

(** An element without slug whose name is not empty gets the cleaned name
    as its slug when that is free, and the counter stays; when it is in
    use, the counter is incremented and appended once. *)
Lemma ensure_slug_named tag attrib ch name self :
  attrib !! "slug" = None →
  attrib !! "name" = Some (String ch name) →
  let candidate := clean (String ch name) in
  ensure_slug tag attrib self =
    if decide (candidate ∈ used_slugs self) then
      let count := S (unnamed_modules self) in
      let slug := candidate +:+ "_" +:+ pretty count in
      (<["slug" := slug]> attrib,
       mkSystem count ({[slug]} ∪ used_slugs self))
    else
      (<["slug" := candidate]> attrib,
       mkSystem (unnamed_modules self) ({[candidate]} ∪ used_slugs self)).
Proof.
  intros Hslug Hname candidate. unfold ensure_slug. rewrite Hslug, Hname.
  fold candidate. by case_decide.
Qed.

(** The node of an element that has a name and no slug: its Location
    carries the cleaned name whenever that is free, and the counter is not
    consumed. *)
Theorem process_xml_named o c tag attrib children ch name sys w :
  attrib !! "slug" = None →
  attrib !! "name" = Some (String ch name) →
  clean (String ch name) ∉ used_slugs sys →
  let run := process_xml (Some o) (Some c) (Element tag attrib children)
                         (sys, w) in
  let module :=
    mkDescriptor (length (objects w))
      (mkLocation o c tag (clean (String ch name)) None)
      (<["slug" := clean (String ch name)]> attrib) children in
  objects run.2.2 !! length (objects w) = Some module ∧
  (∀ d, run.1 = inr d → d = module) ∧
  (ensure_slug tag attrib sys).2
  = mkSystem (unnamed_modules sys)
             ({[clean (String ch name)]} ∪ used_slugs sys).
Proof.
  intros Hslug Hname Hfree run module.
  pose proof (ensure_slug_named tag attrib ch name sys Hslug Hname) as Hens.
  simpl in Hens. rewrite decide_False in Hens by done.
  destruct (process_xml_node o c tag attrib children sys w)
    as (v & Hv & Hobj & _ & Hret).
  rewrite Hens in Hv, Hobj, Hret. simpl in Hv, Hobj, Hret.
  rewrite lookup_insert_eq in Hv. injection Hv as <-.
  by rewrite Hens.
Qed.

(** ** Loads that return *)

(** With a flag on the import system, the outcome of [process_xml] is that
    of lines 72-93 run over the visited texts. *)
Lemma process_xml_outcome_visited b org course x s :
  ImportSystem_eager = Some b →
  outcome (process_xml org course x s)
  = outcome (mapM (construct org course) (visited x) s).
Proof.
  intros Heager. unfold visited. rewrite Heager. destruct b.
  - by apply process_xml_eager_outcome.
  - cbn [mapM]. rewrite outcome_bind.
    destruct x as [text|tag attrib children]; [done|].
    rewrite process_xml_Element, Heager, outcome_bind.
    by destruct (construct _ _ _ _) as [[e|m] s1].
Qed.

(** With org and course at hand, lines 72-93 succeed on every text of a
    list that holds no malformed one. *)
Lemma construct_all_inr o c l : ∀ s,
  first_malformed l = None →
  ∃ ds s', mapM (construct (Some o) (Some c)) l s = (inr ds, s').
Proof.
  induction l as [|[text|tag attrib children] l IH]; intros s Hnone.
  - by exists [], s.
  - done.
  - cbn [mapM]. unfold bind at 1.
    destruct (construct_Element_inr o c tag attrib children s)
      as (d & s1 & ->).
    destruct (IH s1 Hnone) as (ds & s' & Hl).
    exists (d :: ds), s'. unfold bind, ret. by rewrite Hl.
Qed.

(** A course file that lxml parsed and whose root has org and course
    loads, once the directory of the course exists for [OSFS] and the
    import system has its [eager] flag: the call returns.  With the flag
    true, one node is constructed for every element of the tree. *)
Theorem load_course_returns b dd course_dir o c tag attrib children w :
  ImportSystem_data_dir = Some dd →
  OSFS platform (path_join dd course_dir) = inr tt →
  ImportSystem_eager = Some b →
  attrib !! "org" = Some o →
  attrib !! "course" = Some c →
  first_malformed (preorder (Element tag attrib children)) = None →
  returned (load_course course_dir (Some (Element tag attrib children)) w)
  = true ∧
  (b = true →
   length (new_objects w
             (load_course course_dir
                (Some (Element tag attrib children)) w).2)
   = length (preorder (Element tag attrib children))).
Proof.
  intros Hdd Hfs Heager Ho Hc Hnone.
  assert (ImportSystem_new course_dir = inr (mkSystem 0 ∅)) as Hnew.
  { unfold ImportSystem_new. by rewrite Hdd, Hfs. }
  assert (first_malformed (visited (Element tag attrib children)) = None)
    as Hvisited.
  { unfold visited. rewrite Heager. by destruct b. }
  rewrite (load_course_Element _ _ _ _ _ _ Hnew). rewrite Ho, Hc. simpl.
  pose proof (process_xml_outcome_visited b (Some o) (Some c)
                (Element tag attrib children) (mkSystem 0 ∅, w) Heager)
    as Hout.
  destruct (construct_all_inr o c _ (mkSystem 0 ∅, w) Hvisited)
    as (ds & [sys' w'] & Hrun).
  rewrite Hrun in Hout. unfold outcome in Hout. unfold returned.
  destruct (process_xml _ _ _ _) as [[e|d] s']; simplify_eq/=.
  destruct (construct_run _ _ _ _ _ _ _ _ Hrun) as (Hobj & Hbuilt & _).
  split; [done|]. intros ->. unfold new_objects.
  rewrite Hobj, drop_app_length.
  unfold visited in Hbuilt. rewrite Heager in Hbuilt.
  by rewrite <-(Forall2_length _ _ _ Hbuilt).
Qed.

(** ** What a load does to the index *)

Lemma insert_all_lookup_ne (ds : list XModuleDescriptor) loc :
  ∀ m : gmap Location XModuleDescriptor,
  loc ∉ location <$> ds →
  foldl (λ m d, <[location d := d]> m) m ds !! loc = m !! loc.
Proof.
  induction ds as [|d ds IH]; intros m Hloc; [done|].
  rewrite fmap_cons in Hloc. apply not_elem_of_cons in Hloc as [Hne Hloc].
  simpl. rewrite IH by done. by rewrite lookup_insert_ne.
Qed.

(** However [process_xml] ends, the objects are the former ones followed by
    new ones, and the index is the former one with the new objects
    registered in the order of their construction. *)
Lemma process_xml_overlay org course x sys w :
  let s' := (process_xml org course x (sys, w)).2 in
  ∃ ds, objects s'.2 = objects w ++ ds ∧
    modules (modulestore s'.2)
    = foldl (λ m d, <[location d := d]> m) (modules (modulestore w)) ds.
Proof.
  apply (process_xml_invariant org course
    (λ s', ∃ ds, objects s'.2 = objects w ++ ds ∧
       modules (modulestore s'.2)
       = foldl (λ m d, <[location d := d]> m) (modules (modulestore w)) ds)).
  - intros [text|tag attrib children] [sys1 w1] (ds & Hobj & Hmod);
      [by exists ds|].
    rewrite construct_Element.
    destruct (ensure_slug tag attrib sys1) as [attrib' sys2].
    destruct (Location_new _) as [e|loc]; simpl in *; [by exists ds|].
    eexists (ds ++ [_]). rewrite Hobj, Hmod, foldl_snoc, <-app_assoc. done.
  - exists []. by rewrite app_nil_r.
Qed.

(** However the load of a course ends, it removes and changes no object,
    the index afterwards is the former index with the new nodes registered
    in the order of their construction (a later node replacing an earlier
    one of the same Location), and every Location that no new node has is
    looked up as before. *)
Theorem load_course_overlay course_dir course_file w :
  let w' := (load_course course_dir course_file w).2 in
  objects w' = objects w ++ new_objects w w' ∧
  modules (modulestore w')
  = foldl (λ m d, <[location d := d]> m) (modules (modulestore w))
          (new_objects w w') ∧
  ∀ loc, loc ∉ location <$> new_objects w w' →
         modules (modulestore w') !! loc = modules (modulestore w) !! loc.
Proof.
  intros w'.
  assert (∃ ds, objects w' = objects w ++ ds ∧
            modules (modulestore w')
            = foldl (λ m d, <[location d := d]> m)
                    (modules (modulestore w)) ds) as (ds & Hobj & Hmod).
  { subst w'. unfold load_course.
    destruct course_file as [[text|tag attrib children]|];
      [exists []; by rewrite app_nil_r| |exists []; by rewrite app_nil_r].
    destruct (ImportSystem_new course_dir) as [e|system] eqn:Hnew;
      [exists []; by rewrite app_nil_r|].
    apply ImportSystem_new_inr in Hnew as ->.
    pose proof (process_xml_overlay (attrib !! "org") (attrib !! "course")
                  (Element tag attrib children) (mkSystem 0 ∅) w) as H.
    by destruct (process_xml _ _ _ _) as [r [sys' w']]. }
  unfold new_objects. rewrite Hobj, drop_app_length.
  split_and!; [done..|]. intros loc Hloc. rewrite Hmod.
  by apply insert_all_lookup_ne.
Qed.

(** ** A load does not depend on the loads before it *)

Lemma outcome_bind_ret {S A B} (c : M S A) (f : A → B) s :
  outcome ((let* a := c in ret (f a)) s) = outcome (c s).
Proof. rewrite outcome_bind. by destruct (c s) as [[e|a] s']. Qed.

(** Lines 72-93 run over the same texts with the same allocator in two
    worlds end alike, leave the same allocator, and construct nodes with the
    same Locations. *)
Lemma construct_run_any_world org course l : ∀ sys w1 w2,
  let o1 := outcome (mapM (construct org course) l (sys, w1)) in
  let o2 := outcome (mapM (construct org course) l (sys, w2)) in
  o1.1 = o2.1 ∧ o1.2.1 = o2.2.1 ∧
  ∃ ds1 ds2, objects o1.2.2 = objects w1 ++ ds1 ∧
             objects o2.2.2 = objects w2 ++ ds2 ∧
             location <$> ds1 = location <$> ds2.
Proof.
  induction l as [|x l IH]; intros sys w1 w2.
  - simpl. split_and!; [done..|]. exists [], []. by rewrite !app_nil_r.
  - cbn [mapM]. rewrite !outcome_bind.
    destruct x as [text|tag attrib children].
    + simpl. split_and!; [done..|]. exists [], []. by rewrite !app_nil_r.
    + rewrite !construct_Element.
      destruct (ensure_slug tag attrib sys) as [attrib' sys1].
      destruct (Location_new _) as [e|loc].
      * simpl. split_and!; [done..|]. exists [], []. by rewrite !app_nil_r.
      * cbv beta iota zeta. rewrite !(outcome_bind_ret _ (cons _)).
        match goal with
        | |- context [mapM _ l (sys1, ?a)] => set (w1' := a)
        end.
        match goal with
        | |- context [mapM _ l (sys1, mkWorld ?m (objects w2 ++ ?d))] =>
            set (w2' := mkWorld m (objects w2 ++ d))
        end.
        destruct (IH sys1 w1' w2') as (He & Hs & ds1 & ds2 & H1 & H2 & Hloc).
        split_and!; [done..|].
        eexists (_ :: ds1), (_ :: ds2). rewrite H1, H2. subst w1' w2'.
        cbn [objects]. rewrite <-!app_assoc. split_and!; [done..|].
        by rewrite !fmap_cons, Hloc.
Qed.

Lemma process_xml_any_world org course x sys w1 w2 :
  let o1 := outcome (process_xml org course x (sys, w1)) in
  let o2 := outcome (process_xml org course x (sys, w2)) in
  o1.1 = o2.1 ∧
  ∃ ds1 ds2, objects o1.2.2 = objects w1 ++ ds1 ∧
             objects o2.2.2 = objects w2 ++ ds2 ∧
             location <$> ds1 = location <$> ds2.
Proof.
  destruct ImportSystem_eager as [b|] eqn:Heager.
  - rewrite !(process_xml_outcome_visited b) by done.
    destruct (construct_run_any_world org course (visited x) sys w1 w2)
      as (He & _ & Hds). by split.
  - destruct x as [text|tag attrib children].
    + simpl. split; [done|]. exists [], []. by rewrite !app_nil_r.
    + rewrite !process_xml_Element, Heager, !outcome_bind.
      rewrite !construct_Element.
      destruct (ensure_slug tag attrib sys) as [attrib' sys1].
      destruct (Location_new _) as [e|loc]; simpl.
      * split; [done|]. exists [], []. by rewrite !app_nil_r.
      * split; [done|]. by eexists [_], [_].
Qed.

(** Every load starts from a fresh allocator (lines 69-70): whether the load
    of a course file returns or which exception it raises, and the Locations
    of the nodes it constructs, slugs included, are the same whatever the
    store and the objects were before.  Loading a course again therefore
    produces the same Locations again. *)
Theorem load_course_any_world course_dir course_file w1 w2 :
  (outcome (load_course course_dir course_file w1)).1
  = (outcome (load_course course_dir course_file w2)).1 ∧
  location <$> new_objects w1 (load_course course_dir course_file w1).2
  = location <$> new_objects w2 (load_course course_dir course_file w2).2.
Proof.
  unfold load_course, new_objects.
  destruct course_file as [[text|tag attrib children]|];
    [by rewrite !drop_all| |by rewrite !drop_all].
  destruct (ImportSystem_new course_dir) as [e|system] eqn:Hnew;
    [by rewrite !drop_all|].
  apply ImportSystem_new_inr in Hnew as ->.
  destruct (process_xml_any_world (attrib !! "org") (attrib !! "course")
              (Element tag attrib children) (mkSystem 0 ∅) w1 w2)
    as (He & ds1 & ds2 & H1 & H2 & Hloc).
  unfold outcome in *.
  destruct (process_xml _ _ _ (_, w1)) as [r1 [sys1 w1']],
    (process_xml _ _ _ (_, w2)) as [r2 [sys2 w2']].
  simpl in *. rewrite H1, H2, !drop_app_length. by split.
Qed.

(** ** The constructor of the store *)

Lemma XMLModuleStore_init_loop data_dir default_class eager listing :
  XMLModuleStore_init data_dir default_class eager listing
  = match resolve_default_class default_class with
    | inl e => (inl e, mkWorld (mkStore eager data_dir ∅ [] None) [])
    | inr class_ =>
        (let* _ := mapM load_entry listing in ret tt)
          (mkWorld (mkStore eager data_dir ∅ [] class_) [])
    end.
Proof. done. Qed.

Lemma load_entry_file name course_file w :
  load_entry (name, false, course_file) w = (inr tt, w).
Proof. done. Qed.

Lemma load_entry_dir name course_file w :
  outcome (load_entry (name, true, course_file) w)
  = outcome (load_course name course_file w).
Proof. unfold load_entry. by rewrite outcome_bind_ret. Qed.

Lemma mapM_cons_outcome {S A B} (f : A → M S B) a l s :
  outcome (mapM f (a :: l) s)
  = match f a s with
    | (inl e, s') => (Some e, s')
    | (inr _, s') => outcome (mapM f l s')
    end.
Proof.
  cbn [mapM]. rewrite outcome_bind.
  destruct (f a s) as [[e|b] s']; [done|]. by rewrite outcome_bind_ret.
Qed.

Lemma mapM_load_entry_skips listing : ∀ w,
  outcome (mapM load_entry listing w)
  = outcome (mapM load_entry
               (filter (λ entry : string * bool * option xml,
                          entry.1.2 = true) listing) w).
Proof.
  induction listing as [|[[name isdir] course_file] listing IH]; intros w;
    [done|].
  destruct isdir.
  - rewrite filter_cons_True by done. rewrite !mapM_cons_outcome.
    destruct (load_entry _ w) as [[e|u] w']; [done|]. apply IH.
  - rewrite filter_cons_False by done.
    rewrite mapM_cons_outcome, load_entry_file. apply IH.
Qed.

(** The entries of the data directory that are not directories count for
    nothing: the store built from a listing is the store built from its
    directories alone, with the same outcome. *)
Theorem XMLModuleStore_init_skips_files data_dir default_class eager listing :
  XMLModuleStore_init data_dir default_class eager listing
  = XMLModuleStore_init data_dir default_class eager
      (filter (λ entry : string * bool * option xml, entry.1.2 = true)
              listing).
Proof.
  rewrite !XMLModuleStore_init_loop.
  destruct (resolve_default_class default_class) as [e|class_]; [done|].
  apply bind_outcome_eq. apply mapM_load_entry_skips.
Qed.

Lemma mapM_app_abort {S A B} (f : A → M S B) l1 a l2 s bs s1 e s2 :
  mapM f l1 s = (inr bs, s1) →
  f a s1 = (inl e, s2) →
  mapM f (l1 ++ a :: l2) s = (inl e, s2).
Proof.
  intros H1 H2. rewrite mapM_app. unfold bind at 1. rewrite H1.
  cbn [mapM]. unfold bind. by rewrite H2.
Qed.

(** The first course whose load raises ends the construction: the
    constructor raises the same exception, the courses listed after it are
    not loaded, and the state is the one that load left. *)
Theorem XMLModuleStore_init_aborts data_dir default_class eager
    before name course_file after err :
  returned (XMLModuleStore_init data_dir default_class eager before) = true →
  (load_course name course_file
     (XMLModuleStore_init data_dir default_class eager before).2).1
  = inl err →
  XMLModuleStore_init data_dir default_class eager
    (before ++ (name, true, course_file) :: after)
  = (inl err,
     (load_course name course_file
        (XMLModuleStore_init data_dir default_class eager before).2).2).
Proof.
  rewrite !XMLModuleStore_init_loop. unfold returned.
  destruct (resolve_default_class default_class) as [e|class_]; [done|].
  set (w0 := mkWorld _ _). unfold bind.
  destruct (mapM load_entry before w0) as [[e|us] w1] eqn:Hbefore; [done|].
  intros _. simpl. intros Hload.
  assert (load_entry (name, true, course_file) w1
          = (inl err, (load_course name course_file w1).2)) as Hentry.
  { unfold load_entry, bind.
    by destruct (load_course name course_file w1) as [[e|d] w2];
      simplify_eq/=. }
  by rewrite (mapM_app_abort _ _ _ _ _ _ _ _ _ Hbefore Hentry).
Qed.

(** A property of the world kept by lines 72-93 is kept by the load of a
    course and by the constructor, however they end. *)
Lemma load_course_invariant (P : world → Prop) :
  (∀ org course x s, P s.2 → P (construct org course x s).2.2) →
  ∀ course_dir course_file w, P w → P (load_course course_dir course_file w).2.
Proof.
  intros Hstep course_dir course_file w Hw. unfold load_course.
  destruct course_file as [[text|tag attrib children]|]; [done| |done].
  destruct (ImportSystem_new course_dir) as [e|system] eqn:Hnew; [done|].
  apply ImportSystem_new_inr in Hnew as ->.
  pose proof (process_xml_invariant (attrib !! "org") (attrib !! "course")
                (λ s, P s.2) (Hstep _ _) (Element tag attrib children)
                (mkSystem 0 ∅, w) Hw) as H.
  by destruct (process_xml _ _ _ _) as [r [sys' w']].
Qed.

Lemma mapM_load_entry_invariant (P : world → Prop) listing w :
  (∀ org course x s, P s.2 → P (construct org course x s).2.2) →
  P w → P (mapM load_entry listing w).2.
Proof.
  intros Hstep. revert w. apply (mapM_invariant P).
  apply Forall_forall. intros [[name isdir] course_file] _ w Hw.
  unfold load_entry. destruct isdir; [|done].
  pose proof (load_course_invariant P Hstep name course_file w Hw) as H.
  unfold bind, ret.
  by destruct (load_course name course_file w) as [[e|d] w'].
Qed.

Lemma XMLModuleStore_init_invariant (P : world → Prop) dir cls flag listing :
  (∀ org course x s, P s.2 → P (construct org course x s).2.2) →
  (∀ class_, P (mkWorld (mkStore flag dir ∅ [] class_) [])) →
  P (XMLModuleStore_init dir cls flag listing).2.
Proof.
  intros Hstep H0. rewrite XMLModuleStore_init_loop.
  destruct (resolve_default_class cls) as [e|class_]; [apply H0|].
  set (w0 := mkWorld _ _).
  pose proof (mapM_load_entry_invariant P listing w0 Hstep (H0 _)) as H.
  unfold bind, ret. by destruct (mapM load_entry listing w0) as [[e|u] w'].
Qed.

(** When the import of lines 41-42 raises, the constructor raises that
    exception before any course is loaded.  Otherwise, however many courses
    it loads and however the loads end, [default_class] is the class that
    the dotted name stands for (or [None] as given).  In every case [eager]
    and [data_dir] are the constructor's arguments and [self.courses] is
    still the empty list of line 36; the reply of [get_courses] is the
    configured list in every such store. *)
Theorem XMLModuleStore_init_fields dir cls flag listing
    (settings_COURSES : list string) :
  let built := XMLModuleStore_init dir cls flag listing in
  let self := modulestore built.2 in
  eager self = flag ∧ data_dir self = dir ∧ courses self = [] ∧
  get_courses settings_COURSES self = (inr settings_COURSES, self) ∧
  match cls with
  | None => default_class self = None
  | Some dotted =>
      match import_class platform (rpartition_dot dotted).1
                         (rpartition_dot dotted).2 with
      | inr _ =>
          default_class self
          = Some (mkClass (rpartition_dot dotted).1 (rpartition_dot dotted).2)
      | inl e => built = (inl e, mkWorld (mkStore flag dir ∅ [] None) [])
      end
  end.
Proof.
  intros built self. split_and!.
  - subst self built.
    apply (XMLModuleStore_init_invariant (λ w, eager (modulestore w) = flag));
      [|done]. intros org course x s <-. apply construct_frame.
  - subst self built.
    apply (XMLModuleStore_init_invariant
             (λ w, data_dir (modulestore w) = dir)); [|done].
    intros org course x s <-. apply construct_frame.
  - subst self built.
    apply (XMLModuleStore_init_invariant (λ w, courses (modulestore w) = []));
      [|done]. intros org course x s <-. apply construct_frame.
  - done.
  - subst self built. rewrite XMLModuleStore_init_loop.
    unfold resolve_default_class. destruct cls as [dotted|].
    + destruct (rpartition_dot dotted) as [module_path name]. simpl.
      destruct (import_class platform module_path name) as [e|[]]; [done|].
      set (w0 := mkWorld _ _).
      pose proof (mapM_load_entry_invariant
                    (λ w, default_class (modulestore w)
                          = Some (mkClass module_path name)) listing w0) as H.
      unfold bind, ret.
      destruct (mapM load_entry listing w0) as [[e|u] w']; apply H; try done;
        intros org course x s <-; apply construct_frame.
    + set (w0 := mkWorld _ _).
      pose proof (mapM_load_entry_invariant
                    (λ w, default_class (modulestore w) = None) listing w0)
        as H.
      unfold bind, ret.
      destruct (mapM load_entry listing w0) as [[e|u] w']; apply H; try done;
        intros org course x s <-; apply construct_frame.
Qed.

Lemma get_item_inr dir cls flag listing like d self' :
  get_item like (modulestore (XMLModuleStore_init dir cls flag listing).2)
  = (inr d, self') →
  Location_new like = inr (location d) ∧
  d ∈ objects (XMLModuleStore_init dir cls flag listing).2.
Proof.
  pose proof (XMLModuleStore_init_consistent dir cls flag listing) as Hw.
  unfold consistent in Hw. unfold get_item, bind, lift_exn, gets, raise, ret.
  destruct (Location_new like) as [e|loc]; [done|]. rewrite Hw.
  destruct (index_of _ !! loc) as [d'|] eqn:Hd; [|done].
  intros [= <- _]. destruct (index_of_lookup_Some _ _ _ Hd) as [Hin <-].
  done.
Qed.

(** In a store built by the constructor, whatever [get_item] returns is a
    node that a load constructed and whose Location is the one asked for. *)
Theorem get_item_sound dir cls flag listing like :
  match (get_item like
           (modulestore (XMLModuleStore_init dir cls flag listing).2)).1 with
  | inr d =>
      Location_new like = inr (location d) ∧
      d ∈ objects (XMLModuleStore_init dir cls flag listing).2
  | inl _ => True
  end.
Proof.
  destruct (get_item like _) as [[e|d] self'] eqn:Hget; [done|].
  by apply (get_item_inr _ _ _ _ _ _ self').
Qed.

(** In a store built by the constructor, [get_item] on a well-specified
    Location returns exactly when some constructed node has that Location,
    and raises ItemNotFoundError for that Location otherwise. *)
Theorem get_item_returns_iff dir cls flag listing like loc :
  Location_new like = inr loc →
  let w := (XMLModuleStore_init dir cls flag listing).2 in
  (returned (get_item like (modulestore w)) = true
   ↔ loc ∈ location <$> objects w) ∧
  (returned (get_item like (modulestore w)) = false
   ↔ get_item like (modulestore w)
     = (inl (ItemNotFoundError loc), modulestore w)).
Proof.
  intros Hloc w.
  pose proof (XMLModuleStore_init_consistent dir cls flag listing) as Hw.
  fold w in Hw. unfold consistent in Hw.
  rewrite (get_item_lookup _ _ _ Hloc), Hw. unfold returned.
  destruct (index_of (objects w) !! loc) as [d|] eqn:Hd; simpl.
  - split; [|by split]. split; [intros _|done].
    destruct (index_of_lookup_Some _ _ _ Hd) as [Hin <-].
    apply list_elem_of_fmap. by exists d.
  - split; [|by split]. split; [done|].
    intros (d & -> & Hin)%list_elem_of_fmap.
    pose proof (index_of_lookup_latest (objects w)) as Hlatest.
    assert (∃ d', index_of (objects w) !! location d = Some d') as [d' Hd'];
      [|by rewrite Hd' in Hd].
    clear Hd Hw Hlatest. revert Hin. generalize (objects w). intros l Hin.
    induction l as [|d0 l IH] using rev_ind; [by apply elem_of_nil in Hin|].
    rewrite index_of_snoc.
    destruct (decide (location d0 = location d)) as [Heq|Hne].
    + rewrite Heq, lookup_insert_eq. eauto.
    + rewrite lookup_insert_ne by done. apply IH.
      apply elem_of_app in Hin as [Hin|Hin%list_elem_of_singleton];
        [done|by subst].
Qed.

(** In a store built by the constructor in which the constructed nodes have
    pairwise distinct Locations, [get_item] on the Location of any of them
    returns that very node. *)
Theorem get_item_round_trip dir cls flag listing d :
  NoDup (location <$> objects (XMLModuleStore_init dir cls flag listing).2) →
  d ∈ objects (XMLModuleStore_init dir cls flag listing).2 →
  get_item (to_like (location d))
    (modulestore (XMLModuleStore_init dir cls flag listing).2)
  = (inr d, modulestore (XMLModuleStore_init dir cls flag listing).2).
Proof.
  intros Hnodup [i Hi]%list_elem_of_lookup.
  pose proof (XMLModuleStore_init_consistent dir cls flag listing) as Hw.
  unfold consistent in Hw.
  rewrite (get_item_lookup _ _ _ (Location_new_to_like _)), Hw.
  rewrite (index_of_lookup_latest _ i d); [done..|].
  intros j d' Hij Hj Heq.
  assert (i = j); [|lia].
  apply (NoDup_lookup _ i j (location d) Hnodup);
    rewrite list_lookup_fmap; [by rewrite Hi|rewrite Hj; simpl; by rewrite Heq].
Qed.

(** However a call of [process_xml] ends, no slug has left the set of used
    slugs and the counter has not gone down. *)
Theorem process_xml_allocator_monotone org course x s :
  used_slugs s.1 ⊆ used_slugs (process_xml org course x s).2.1 ∧
  (unnamed_modules s.1 ≤ unnamed_modules (process_xml org course x s).2.1)%nat.
Proof.
  split; [apply process_xml_used_mono|].
  apply (process_xml_invariant org course
           (λ s', (unnamed_modules s.1 ≤ unnamed_modules s'.1)%nat)); [|done].
  intros [text|tag attrib children] [sys1 w1] Hs1; [done|].
  rewrite construct_Element.
  destruct (ensure_slug_step tag attrib sys1) as (v & _ & _ & Hle & _).
  destruct (ensure_slug tag attrib sys1) as [attrib' sys2].
  simpl in *. destruct (Location_new _); simpl; lia.
Qed.

(** ** Empty names *)

(** C10: an element without slug whose name attribute is the empty string
    is treated as an unnamed one.  The node that [process_xml] constructs
    for it has the synthesized slug "{tag}_{n}", with n the incremented
    counter (disambiguated once when that is taken already), as the slug of
    its Location; the cleaning function is not consulted, and slug, Location
    and allocator are those obtained for the element with the name
    removed. *)
Theorem C10_empty_name_is_unnamed o c tag attrib children sys w :
  attrib !! "slug" = None →
  attrib !! "name" = Some EmptyString →
  let count := S (unnamed_modules sys) in
  let candidate := tag +:+ "_" +:+ pretty count in
  let chosen := if decide (candidate ∈ used_slugs sys)
                then candidate +:+ "_" +:+ pretty (S count)
                else candidate in
  let run := process_xml (Some o) (Some c) (Element tag attrib children)
                         (sys, w) in
  let run' := process_xml (Some o) (Some c)
                (Element tag (delete "name" attrib) children) (sys, w) in
  ensure_slug tag attrib sys =
    (if decide (candidate ∈ used_slugs sys) then
       let slug := candidate +:+ "_" +:+ pretty (S count) in
       (<["slug" := slug]> attrib,
        mkSystem (S count) ({[slug]} ∪ used_slugs sys))
     else
       (<["slug" := candidate]> attrib,
        mkSystem count ({[candidate]} ∪ used_slugs sys))) ∧
  (ensure_slug tag attrib sys).1 !! "slug" =
    (ensure_slug tag (delete "name" attrib) sys).1 !! "slug" ∧
  (ensure_slug tag attrib sys).2 =
    (ensure_slug tag (delete "name" attrib) sys).2 ∧
  objects run.2.2 !! length (objects w)
  = Some (mkDescriptor (length (objects w)) (mkLocation o c tag chosen None)
                       (<["slug" := chosen]> attrib) children) ∧
  (∀ d, run.1 = inr d → location d = mkLocation o c tag chosen None) ∧
  location <$> objects run'.2.2 !! length (objects w)
  = Some (mkLocation o c tag chosen None) ∧
  (∀ d, run'.1 = inr d → location d = mkLocation o c tag chosen None).
Proof.
  intros Hslug Hname count candidate chosen run run'.
  assert (delete "name" attrib !! "slug" = None) as Hslug'.
  { by rewrite lookup_delete_ne. }
  assert (delete "name" attrib !! "name" = None) as Hname'.
  { by rewrite lookup_delete_eq. }
  pose proof (ensure_slug_unnamed tag attrib sys Hslug (or_intror Hname))
    as Hens.
  pose proof (ensure_slug_unnamed tag (delete "name" attrib) sys Hslug'
                (or_introl Hname')) as Hens'.
  cbv zeta in Hens, Hens'. fold count candidate in Hens, Hens'.
  assert ((ensure_slug tag attrib sys).1 = <["slug" := chosen]> attrib)
    as Hattrib.
  { rewrite Hens. subst chosen. by case_decide. }
  assert ((ensure_slug tag (delete "name" attrib) sys).1
          = <["slug" := chosen]> (delete "name" attrib)) as Hattrib'.
  { rewrite Hens'. subst chosen. by case_decide. }
  split_and!.
  - exact Hens.
  - by rewrite Hattrib, Hattrib', !lookup_insert_eq.
  - rewrite Hens, Hens'. by case_decide.
  - destruct (process_xml_node o c tag attrib children sys w)
      as (v & Hv & Hobj & _ & _).
    rewrite Hattrib in Hv, Hobj. rewrite lookup_insert_eq in Hv.
    injection Hv as <-. exact Hobj.
  - intros d Hd.
    destruct (process_xml_node o c tag attrib children sys w)
      as (v & Hv & _ & _ & Hret).
    rewrite Hattrib in Hv, Hret. rewrite lookup_insert_eq in Hv.
    injection Hv as <-. by rewrite (Hret d Hd).
  - destruct (process_xml_node o c tag (delete "name" attrib) children sys w)
      as (v & Hv & Hobj & _ & _).
    rewrite Hattrib' in Hv, Hobj. rewrite lookup_insert_eq in Hv.
    injection Hv as <-. subst run'. by rewrite Hobj.
  - intros d Hd.
    destruct (process_xml_node o c tag (delete "name" attrib) children sys w)
      as (v & Hv & _ & _ & Hret).
    rewrite Hattrib' in Hv, Hret. rewrite lookup_insert_eq in Hv.
    injection Hv as <-. by rewrite (Hret d Hd).
Qed.

(** ** Unnamed siblings *)

(** Without children to process, or with the eager flag false, a call of
    [process_xml] on an element is lines 72-93 and no more. *)
Lemma process_xml_no_recursion b org course tag attrib children s :
  ImportSystem_eager = Some b →
  b = false ∨ children = [] →
  process_xml org course (Element tag attrib children) s
  = construct org course (Element tag attrib children) s.
Proof.
  intros Hb Hcase. rewrite process_xml_Element, Hb. unfold bind.
  destruct (construct _ _ _ _) as [[e|m] s1]; [done|].
  destruct Hcase as [->| ->]; [done|]. by destruct b.
Qed.

(** After a call of [process_xml] on an element, the allocator holds at
    least what lines 78-90 left for that element. *)
Lemma process_xml_allocator_after org course tag attrib children sys w :
  let sys1 := (ensure_slug tag attrib sys).2 in
  let run := process_xml org course (Element tag attrib children) (sys, w) in
  used_slugs sys1 ⊆ used_slugs run.2.1 ∧
  (unnamed_modules sys1 ≤ unnamed_modules run.2.1)%nat.
Proof.
  intros sys1 run. subst run.
  apply (process_xml_after_construct _ _ _ _ _ _
           (λ s', used_slugs sys1 ⊆ used_slugs s'.1 ∧
                  (unnamed_modules sys1 ≤ unnamed_modules s'.1)%nat)).
  - intros [text|tag' attrib' children'] [sys2 w2] [Hused Hcount]; [done|].
    rewrite construct_Element.
    pose proof (ensure_slug_used_mono tag' attrib' sys2) as Hmono.
    destruct (ensure_slug_step tag' attrib' sys2) as (v & _ & _ & Hle & _).
    destruct (ensure_slug tag' attrib' sys2) as [attrib2 sys3].
    simpl in *. destruct (Location_new _); simpl; split; set_solver || lia.
  - rewrite construct_Element. subst sys1.
    destruct (ensure_slug tag attrib sys) as [attrib1 sys2].
    simpl. by destruct (Location_new _).
Qed.

(** C8, as amended: with a fresh allocator, of two sibling html elements
    that have neither a slug nor a name attribute the first gets the slug
    "html_1" and the second a slug different from it, drawn from the same
    counter: it is "html_2" when nothing was processed in between, that is
    when the first sibling has no children or the children are not processed
    eagerly.  The two calls return in these cases. *)
Theorem C8_unnamed_synthesis b o c attrib1 attrib2 children1 children2 w :
  ImportSystem_eager = Some b →
  attrib1 !! "slug" = None → attrib1 !! "name" = None →
  attrib2 !! "slug" = None → attrib2 !! "name" = None →
  let run := mapM (process_xml (Some o) (Some c))
               [Element "html" attrib1 children1;
                Element "html" attrib2 children2]
               (mkSystem 0 ∅, w) in
  (∀ d1 d2, run.1 = inr [d1; d2] →
     slug (location d1) = "html_1" ∧
     slug (location d2) ≠ slug (location d1) ∧
     (b = false ∨ children1 = [] → slug (location d2) = "html_2")) ∧
  (b = false ∨ (children1 = [] ∧ children2 = []) →
   ∃ d1 d2, run.1 = inr [d1; d2]).
Proof.
  intros Hb Hs1 Hn1 Hs2 Hn2 run.
  assert (ensure_slug "html" attrib1 (mkSystem 0 ∅)
          = (<["slug" := "html_1"]> attrib1, mkSystem 1 ({["html_1"]} ∪ ∅)))
    as Hfirst.
  { rewrite ensure_slug_unnamed by auto. simpl. rewrite pretty_1.
    by rewrite decide_False by set_solver. }
  split.
  - intros d1 d2 Hrun. subst run. cbn [mapM] in Hrun. unfold bind in Hrun.
    destruct (process_xml (Some o) (Some c)
                (Element "html" attrib1 children1) (mkSystem 0 ∅, w))
      as [[e|m1] [sys1 w1]] eqn:H1; [done|].
    destruct (process_xml (Some o) (Some c)
                (Element "html" attrib2 children2) (sys1, w1))
      as [[e|m2] s2] eqn:H2; [done|].
    unfold ret in Hrun. simpl in Hrun. injection Hrun as -> ->.
    destruct (process_xml_node o c "html" attrib1 children1 (mkSystem 0 ∅) w)
      as (v1 & Hv1 & _ & _ & Hret1).
    rewrite Hfirst in Hv1, Hret1. simpl in Hv1, Hret1.
    rewrite lookup_insert_eq in Hv1. injection Hv1 as <-.
    rewrite H1 in Hret1. rewrite (Hret1 d1 eq_refl). simpl.
    destruct (process_xml_node o c "html" attrib2 children2 sys1 w1)
      as (v2 & Hv2 & _ & _ & Hret2).
    rewrite H2 in Hret2. rewrite (Hret2 d2 eq_refl). simpl.
    pose proof (process_xml_allocator_after (Some o) (Some c) "html" attrib1
                  children1 (mkSystem 0 ∅) w) as [Hused Hcount].
    rewrite Hfirst, H1 in Hused, Hcount. simpl in Hused, Hcount.
    rewrite ensure_slug_unnamed in Hv2 by auto. simpl in Hv2.
    split_and!; [done| |].
    + change "html_1" with ("html" +:+ "_" +:+ "1"). rewrite <-pretty_1.
      case_decide; simpl in Hv2; rewrite lookup_insert_eq in Hv2;
        injection Hv2 as <-; intros Heq%numbered_slug_inj; lia.
    + intros Hcase.
      rewrite (process_xml_no_recursion b) in H1 by done.
      rewrite construct_Element, Hfirst in H1. unfold Location_new in H1.
      simpl in H1. rewrite lookup_insert_eq in H1.
      injection H1 as _ <- _. simpl in Hv2. rewrite pretty_2 in Hv2.
      rewrite decide_False in Hv2
        by (intros [Heq%elem_of_singleton|[]%elem_of_empty]%elem_of_union;
            by vm_compute in Heq).
      simpl in Hv2. rewrite lookup_insert_eq in Hv2. by injection Hv2 as <-.
  - intros Hcase. subst run. cbn [mapM]. unfold bind.
    rewrite (process_xml_no_recursion b) by (destruct Hcase; naive_solver).
    destruct (construct_Element_inr o c "html" attrib1 children1
                (mkSystem 0 ∅, w)) as (d1 & s1 & ->).
    rewrite (process_xml_no_recursion b) by (destruct Hcase; naive_solver).
    destruct (construct_Element_inr o c "html" attrib2 children2 s1)
      as (d2 & s2 & ->).
    by exists d1, d2.
Qed.

(** ** Distinct slugs *)

(** A numbered slug whose number the counter has not reached is free. *)
Lemma accounted_fresh self (t : string) (k : nat) :
  accounted self → (unnamed_modules self < k)%nat →
  t +:+ "_" +:+ pretty k ∉ used_slugs self.
Proof.
  intros Hacc Hk [(t' & k' & Heq & Hk')|Hplain]%Hacc.
  - apply numbered_slug_inj in Heq. lia.
  - apply Hplain. by exists t, k.
Qed.

Lemma accounted_numbered used (t : string) (n k : nat) :
  accounted (mkSystem n used) → (n ≤ k)%nat →
  accounted (mkSystem k ({[t +:+ "_" +:+ pretty k]} ∪ used)).
Proof.
  intros Hacc Hk s [->%elem_of_singleton|Hs]%elem_of_union.
  - left. by exists t, k.
  - destruct (Hacc s Hs) as [(t' & k' & -> & Hk')|Hplain]; [|by right].
    left. exists t', k'. simpl in *. split; [done|lia].
Qed.

(** For a plainly named element, lines 79-90 choose a slug that is free,
    and the used slugs stay accounted for. *)
Lemma ensure_slug_plain tag attrib children self :
  accounted self →
  plainly_named (Element tag attrib children) →
  attrib !! "slug" = None →
  ∃ s, (ensure_slug tag attrib self).1 !! "slug" = Some s ∧
       (s ∉ used_slugs self) ∧
       accounted (ensure_slug tag attrib self).2.
Proof.
  intros Hacc Hplain Hslug. destruct self as [n used].
  destruct (attrib !! "name") as [[|ch name]|] eqn:Hname.
  - pose proof (accounted_fresh _ tag (S n) Hacc (Nat.lt_succ_diag_r n))
      as Hfree.
    rewrite ensure_slug_unnamed by auto. simpl in *.
    rewrite decide_False by done. simpl. rewrite lookup_insert_eq.
    eexists. split_and!; [done..|].
    apply (accounted_numbered _ _ n); [done|lia].
  - rewrite (ensure_slug_named tag attrib ch name _ Hslug Hname). simpl.
    specialize (Hplain ch name Hslug Hname).
    case_decide as Hin; simpl; rewrite lookup_insert_eq;
      eexists; (split; [done|]); split.
    + apply (accounted_fresh (mkSystem n used)); [done|simpl; lia].
    + apply (accounted_numbered _ _ n); [done|lia].
    + done.
    + intros s [->%elem_of_singleton|Hs]%elem_of_union; [by right|].
      by apply Hacc.
  - pose proof (accounted_fresh _ tag (S n) Hacc (Nat.lt_succ_diag_r n))
      as Hfree.
    rewrite ensure_slug_unnamed by auto. simpl in *.
    rewrite decide_False by done. simpl. rewrite lookup_insert_eq.
    eexists. split_and!; [done..|].
    apply (accounted_numbered _ _ n); [done|lia].
Qed.

(** Along plainly named elements every chosen slug is free when chosen. *)
Lemma emits_fresh_plain l : ∀ self,
  accounted self → Forall plainly_named l → emits_fresh self l = true.
Proof.
  induction l as [|[text|tag attrib children] l IH]; intros self Hacc Hall;
    [done..|].
  apply Forall_cons in Hall as [Hx Hall]. cbn [emits_fresh].
  destruct (attrib !! "slug") as [v|] eqn:Hslug.
  - rewrite (ensure_slug_explicit _ _ _ _ Hslug). simpl. by apply IH.
  - destruct (ensure_slug_plain tag attrib children self Hacc Hx Hslug)
      as (s & Hs & Hfree & Hacc').
    destruct (ensure_slug tag attrib self) as [attrib' self'].
    simpl in *. rewrite Hs. apply andb_true_iff. split.
    + by apply bool_decide_eq_true.
    + by apply IH.
Qed.

(** A string without underscore is not of the shape of a numbered slug. *)
Lemma no_underscore_not_numbered s : no_underscore s = true → ¬ numbered s.
Proof.
  intros Hs (t & k & ->).
  change (t +:+ "_" +:+ pretty k) with (t +:+ String "_" (pretty k)) in Hs.
  by rewrite no_underscore_append in Hs.
Qed.

(** C1, as amended: within one course load, the slugs that the allocator
    chooses for the nodes without an explicit slug attribute are pairwise
    distinct, provided that no cleaned name of such a node is itself of the
    shape of a numbered slug (some text, an underscore and a number); for
    names of that shape nothing is said.  Explicit slug attributes are taken
    as they are: they are neither checked against the used slugs nor
    de-duplicated.  The nodes are the objects constructed by the load, one
    for every visited element and in that order. *)
Theorem C1_chosen_slugs_distinct course_dir x w :
  returned (load_course course_dir (Some x) w) = true →
  Forall plainly_named (visited x) →
  let w' := (load_course course_dir (Some x) w).2 in
  (∃ o c, Forall2 (built_from o c) (visited x) (new_objects w w')) ∧
  NoDup (chosen_slugs (visited x) (new_objects w w')).
Proof.
  intros Hret Hplain w'.
  destruct (load_course_returned course_dir x w Hret)
    as (o & c & root & ds & sys' & Hrun & _ & _).
  fold w' in Hrun.
  destruct (construct_run _ _ _ _ _ _ _ _ Hrun) as (Hobj & Hbuilt & _).
  assert (accounted (mkSystem 0 ∅)) as Hacc.
  { by intros s ?%elem_of_empty. }
  pose proof (emits_fresh_plain _ _ Hacc Hplain) as Hfresh.
  destruct (construct_run_chosen _ _ _ _ _ _ _ _ Hrun Hfresh) as [Hnodup _].
  unfold new_objects. rewrite Hobj, drop_app_length. eauto.
Qed.

(** ** Malformed XML *)





End CourseLoad.

(** ** The read-only interface *)

(** C6: each of [create_item], [update_item], [update_children] and
    [update_metadata] raises the read-only error (the NotImplementedError
    carrying "XMLModuleStores are read-only"), whatever its arguments are,
    and leaves the store as it was. *)
Theorem C6_mutations_rejected {Data Children Metadata : Type}
    (self : XMLModuleStore) (location : LocationLike) (data : Data)
    (children : Children) (metadata : Metadata) :
  create_item location self = (inl (NotImplementedError read_only), self) ∧
  update_item location data self
  = (inl (NotImplementedError read_only), self) ∧
  update_children location children self
  = (inl (NotImplementedError read_only), self) ∧
  update_metadata location metadata self
  = (inl (NotImplementedError read_only), self).
Proof. by repeat split. Qed.

(** C9: [get_item] only observes.  Whether it returns a descriptor or
    raises, the store after the call is the store before it, the modules
    index and every other field included. *)
Theorem C9_get_item_observes (self : XMLModuleStore)
    (location : LocationLike) :
  (get_item location self).2 = self.
Proof.
  unfold get_item, bind, lift_exn, gets.
  destruct (Location_new location) as [e|loc]; [done|].
  by destruct (modules self !! loc).
Qed.

(** ** The example courses, loaded *)

(** The slugs given to the nodes of a course, in the order of
    construction. *)
Example repeated_names_slugs :
  (λ d, slug (location d)) <$>
    objects (load_course Location_clean (Some "data") (Some true)
               toy_platform "toy" (Some repeated_names_course) empty_world).2
  = ["2012_Fall"; "quiz_1"; "quiz"; "quiz_1"].
Proof. vm_compute. reflexivity. Qed.

(** C4 on [repeated_names_course]: the third problem's candidate "quiz" is
    in use, the counter goes from 0 to 1 and "_1" is appended once; the
    result "quiz_1" is emitted although it is in the set of used slugs at
    that moment, and two problems end up with the slug "quiz_1". *)
Theorem C4_single_retry_emits_used_slug :
  let problem name := ensure_slug Location_clean "problem" {["name" := name]} in
  let sys1 := (problem "quiz_1" (mkSystem 0 ∅)).2 in
  let sys2 := (problem "quiz" sys1).2 in
  "quiz" ∈ used_slugs sys2 ∧
  "quiz_1" ∈ used_slugs sys2 ∧
  (problem "quiz" sys2).1 !! "slug" = Some "quiz_1" ∧
  unnamed_modules (problem "quiz" sys2).2 = 1 ∧
  (λ d, slug (location d)) <$>
    objects (load_course Location_clean (Some "data") (Some true)
               toy_platform "toy" (Some repeated_names_course) empty_world).2
  = ["2012_Fall"; "quiz_1"; "quiz"; "quiz_1"].
Proof.
  intros problem sys1 sys2.
  split_and!; [by_evaluation|by_evaluation|vm_compute; reflexivity..].
Qed.

(** C1 on [duplicate_course]: the load constructs two distinct html nodes
    (objects 1 and 2) with the same org, course and category, and both have
    the slug "intro", which both elements carry as an explicit attribute.
    On [repeated_names_course], where no problem has an explicit slug, the
    problem nodes 1 and 3 both have the slug "quiz_1": the first by its
    name, which has the shape of a numbered slug, the third by the single
    retry of lines 85-87. *)
Lemma C1_counterexample :
  identities (load_course Location_clean (Some "data") (Some true)
                toy_platform "toy" (Some duplicate_course) empty_world).2
  = [(0, root_location); (1, intro_location); (2, intro_location)] ∧
  identities (load_course Location_clean (Some "data") (Some true)
                toy_platform "toy" (Some repeated_names_course)
                empty_world).2
  = [(0, root_location);
     (1, mkLocation "edX" "toy" "problem" "quiz_1" None);
     (2, mkLocation "edX" "toy" "problem" "quiz" None);
     (3, mkLocation "edX" "toy" "problem" "quiz_1" None)].
Proof. split; vm_compute; reflexivity. Qed.

(** On [named_course] no name has the shape of a numbered slug, and the
    slugs chosen for its four elements without explicit slug are pairwise
    distinct, the two problems named "quiz" included. *)
Lemma C1_witness :
  returned (load_course Location_clean (Some "data") (Some true)
              toy_platform "toy" (Some named_course) empty_world) = true ∧
  Forall (plainly_named Location_clean) (visited (Some true) named_course) ∧
  NoDup (chosen_slugs (visited (Some true) named_course)
           (new_objects empty_world
              (load_course Location_clean (Some "data") (Some true)
                 toy_platform "toy" (Some named_course) empty_world).2)).
Proof.
  assert (returned (load_course Location_clean (Some "data") (Some true)
                      toy_platform "toy"
                      (Some named_course) empty_world) = true) as Hret
    by (vm_compute; reflexivity).
  assert (Forall (plainly_named Location_clean)
            (visited (Some true) named_course)) as Hplain.
  { simpl.
    repeat (constructor;
            [intros ch name _ Hname; try discriminate Hname;
             apply no_underscore_not_numbered;
             injection Hname as <- <-; reflexivity|]).
    constructor. }
  exact (conj Hret (conj Hplain
           (proj2 (C1_chosen_slugs_distinct Location_clean (Some "data")
                     (Some true) toy_platform "toy" named_course
                     empty_world Hret Hplain)))).
Defined.


(** C3 on an html element with the explicit slug "foo" and a fresh
    allocator: the node gets the slug "foo", and "foo" is not in the set of
    used slugs afterwards. *)
Lemma C3_counterexample :
  let run := process_xml Location_clean (Some true) (Some "edX") (Some "toy")
               (element "html" [("slug", "foo")] [])
               (mkSystem 0 ∅, empty_world) in
  (λ d, slug (location d)) <$> objects run.2.2 = ["foo"] ∧
  returned_oid run = Some 0 ∧
  "foo" ∉ used_slugs run.2.1.
Proof.
  intros run. split_and!; [vm_compute; reflexivity..|by_evaluation].
Qed.

Lemma C3_witness :
  ({["slug" := "foo"]} : gmap string string) !! "slug" = Some "foo" ∧
  ensure_slug Location_clean "html" {["slug" := "foo"]} (mkSystem 0 ∅)
  = ({["slug" := "foo"]}, mkSystem 0 ∅).
Proof.
  split; [reflexivity|].
  exact (proj1 (C3_explicit_slug_preserved Location_clean (Some true)
                  "edX" "toy" "html" {["slug" := "foo"]} [] "foo"
                  (mkSystem 0 ∅) empty_world eq_refl)).
Defined.

(** C5 on [duplicate_course]: object 1, constructed for the first html
    element, has the Location [intro_location], but [get_item] on that
    Location returns object 2, the node of the second html element. *)
Lemma C5_counterexample :
  let w' := (load_course Location_clean (Some "data") (Some true)
               toy_platform "toy" (Some duplicate_course) empty_world).2 in
  (λ d, (location d, xml_attrib d !! "display_name")) <$> objects w' !! 1
  = Some (intro_location, None) ∧
  returned_oid (get_item (to_like intro_location) (modulestore w')) = Some 2 ∧
  (λ d, xml_attrib d !! "display_name") <$>
    modules (modulestore w') !! intro_location = Some (Some "Second").
Proof. intros w'. split_and!; vm_compute; reflexivity. Qed.

Lemma C5_witness :
  consistent empty_world ∧
  let w' := (load_course Location_clean (Some "data") (Some true)
               toy_platform "toy" (Some duplicate_course) empty_world).2 in
  (∀ i d, objects w' !! i = Some d →
     (∀ j d', i < j → objects w' !! j = Some d' →
              location d' ≠ location d) →
     get_item (to_like (location d)) (modulestore w')
     = (inr d, modulestore w')) ∧
  (∀ like loc, Location_new like = inr loc →
     (∀ d, d ∈ objects w' → location d ≠ loc) →
     get_item like (modulestore w')
     = (inl (ItemNotFoundError loc), modulestore w')).
Proof.
  split; [reflexivity|].
  exact (C5_lookup_round_trip Location_clean (Some "data") (Some true)
           toy_platform "toy" (Some duplicate_course) empty_world
           eq_refl).
Defined.

(** On [duplicate_course], a store constructed with [eager=False], the
    import system reading the same flag: the construction returns and only
    the root is in the index. *)
Example lazy_store_holds_root_only :
  let built := XMLModuleStore_init Location_clean (Some "data") (Some false)
                 toy_platform
                 "data" None false [("toy", true, Some duplicate_course)] in
  returned built = true ∧
  eager (modulestore built.2) = false ∧
  identities built.2 = [(0, root_location)] ∧
  get_item (to_like intro_location) (modulestore built.2)
  = (inl (ItemNotFoundError intro_location), modulestore built.2).
Proof. intros built. split_and!; vm_compute; reflexivity. Qed.

(** The [eager] argument of the store is not what [process_xml] reads: with
    an import system whose own [eager] attribute is false or missing, a store
    constructed with [eager=True] does not hold the children either. *)
Example store_eager_not_consulted :
  identities (XMLModuleStore_init Location_clean (Some "data") (Some false)
                toy_platform
                "data" None true [("toy", true, Some duplicate_course)]).2
  = [(0, root_location)] ∧
  (XMLModuleStore_init Location_clean (Some "data") None toy_platform
     "data" None true [("toy", true, Some duplicate_course)]).1
  = inl (AttributeError "eager").
Proof. split; vm_compute; reflexivity. Qed.

(** C8 on two html siblings the first of which has a child, the children
    being processed eagerly: the child draws "p_2" from the counter, and the
    second sibling gets "html_3". *)
Lemma C8_counterexample :
  let run := mapM (process_xml Location_clean (Some true)
                     (Some "edX") (Some "toy"))
               [Element "html" ∅ [Element "p" ∅ []]; Element "html" ∅ []]
               (mkSystem 0 ∅, empty_world) in
  match run.1 with
  | inr ds => Some ((λ d, slug (location d)) <$> ds)
  | inl _ => None
  end = Some ["html_1"; "html_3"] ∧
  (λ d, slug (location d)) <$> objects run.2.2
  = ["html_1"; "p_2"; "html_3"].
Proof. intros run. split; vm_compute; reflexivity. Qed.

(** Two html siblings without children, slug and name: "html_1" and
    "html_2". *)
Lemma C8_witness :
  Some true = Some true ∧
  (∅ : gmap string string) !! "slug" = None ∧
  (∅ : gmap string string) !! "name" = None ∧
  ({["display_name" := "Text"]} : gmap string string) !! "slug" = None ∧
  ({["display_name" := "Text"]} : gmap string string) !! "name" = None ∧
  let run := mapM (process_xml Location_clean (Some true)
                     (Some "edX") (Some "toy"))
               [Element "html" ∅ [];
                Element "html" {["display_name" := "Text"]} []]
               (mkSystem 0 ∅, empty_world) in
  ∃ d1 d2, run.1 = inr [d1; d2] ∧
           slug (location d1) = "html_1" ∧ slug (location d2) = "html_2".
Proof.
  assert ((∅ : gmap string string) !! "slug" = None) as Hslug1
    by reflexivity.
  assert ((∅ : gmap string string) !! "name" = None) as Hname1
    by reflexivity.
  assert (({["display_name" := "Text"]} : gmap string string) !! "slug"
          = None) as Hslug2 by reflexivity.
  assert (({["display_name" := "Text"]} : gmap string string) !! "name"
          = None) as Hname2 by reflexivity.
  split_and!; [reflexivity..|]. intros run.
  destruct (C8_unnamed_synthesis Location_clean (Some true) true "edX" "toy"
              ∅ {["display_name" := "Text"]} [] [] empty_world
              eq_refl Hslug1 Hname1 Hslug2 Hname2) as [Hslugs Hreturns].
  destruct (Hreturns (or_intror (conj eq_refl eq_refl))) as (d1 & d2 & Hrun).
  destruct (Hslugs d1 d2 Hrun) as (H1 & _ & H2).
  exists d1, d2.
  split_and!; [exact Hrun|exact H1|exact (H2 (or_intror eq_refl))].
Defined.

(** Two html siblings, the second of which has a child: the child is
    processed after both. *)
Example siblings_slugs :
  (λ d, slug (location d)) <$>
    objects (mapM (process_xml Location_clean (Some true)
                     (Some "edX") (Some "toy"))
               [Element "html" ∅ [];
                Element "html" {["display_name" := "Text"]}
                        [Element "p" ∅ []]]
               (mkSystem 0 ∅, empty_world)).2.2
  = ["html_1"; "html_2"; "p_3"].
Proof. vm_compute. reflexivity. Qed.

(** An html element with an empty name, on a fresh allocator. *)
Lemma C10_witness :
  ({["name" := EmptyString]} : gmap string string) !! "slug" = None ∧
  ({["name" := EmptyString]} : gmap string string) !! "name"
  = Some EmptyString ∧
  ∀ d, (process_xml Location_clean (Some true) (Some "edX") (Some "toy")
          (Element "html" {["name" := EmptyString]} [])
          (mkSystem 0 ∅, empty_world)).1 = inr d →
       location d = mkLocation "edX" "toy" "html" "html_1" None.
Proof.
  split_and!; [reflexivity..|]. intros d Hd.
  refine (eq_trans
            (proj1 (proj2 (proj2 (proj2 (proj2
               (C10_empty_name_is_unnamed Location_clean (Some true)
                  "edX" "toy" "html" {["name" := EmptyString]} []
                  (mkSystem 0 ∅) empty_world eq_refl eq_refl))))) d Hd) _).
  vm_compute. reflexivity.
Defined.

(** The slug that [named_course]'s last element, whose name is empty,
    receives. *)
Example empty_name_slug :
  (λ d, slug (location d)) <$>
    objects (load_course Location_clean (Some "data") (Some true)
               toy_platform "toy" (Some named_course) empty_world).2
  = ["2012_Fall"; "quiz"; "quiz_1"; "html_2"; "html_3"].
Proof. vm_compute. reflexivity. Qed.

(** ** The further properties on the example courses *)

Lemma process_xml_named_witness :
  ({["name" := "My Problem"]} : gmap string string) !! "slug" = None ∧
  ({["name" := "My Problem"]} : gmap string string) !! "name"
  = Some (String "M" "y Problem") ∧
  (Location_clean (String "M" "y Problem") ∉ used_slugs (mkSystem 0 ∅)) ∧
  (ensure_slug Location_clean "problem" {["name" := "My Problem"]}
     (mkSystem 0 ∅)).2
  = mkSystem 0 ({[Location_clean (String "M" "y Problem")]} ∪ ∅).
Proof.
  assert (Location_clean (String "M" "y Problem") ∉ used_slugs (mkSystem 0 ∅))
    as Hfree by by_evaluation.
  split_and!; [reflexivity..|exact Hfree|].
  exact (proj2 (proj2 (process_xml_named Location_clean (Some true)
           "edX" "toy" "problem" {["name" := "My Problem"]} []
           "M" "y Problem" (mkSystem 0 ∅) empty_world
           eq_refl eq_refl Hfree))).
Defined.

(** The cleaned name of the example above. *)
Example cleaned_name : Location_clean "My Problem" = "My_Problem".
Proof. reflexivity. Qed.

Lemma unnamed_course_slugs_witness :
  returned (load_course Location_clean (Some "data") (Some true)
              toy_platform "toy" (Some unnamed_course) empty_world) = true ∧
  Forall unnamed (visited (Some true) unnamed_course) ∧
  (λ d, slug (location d)) <$>
    new_objects empty_world
      (load_course Location_clean (Some "data") (Some true) toy_platform "toy"
         (Some unnamed_course) empty_world).2
  = synthesized 0 (visited (Some true) unnamed_course).
Proof.
  assert (returned (load_course Location_clean (Some "data") (Some true)
                      toy_platform "toy"
                      (Some unnamed_course) empty_world) = true) as Hret
    by (vm_compute; reflexivity).
  assert (Forall unnamed (visited (Some true) unnamed_course)) as Hall.
  { simpl.
    repeat (constructor;
            [split; [reflexivity
                    |first [left; reflexivity | right; reflexivity]]|]).
    constructor. }
  exact (conj Hret (conj Hall
           (proj1 (unnamed_course_slugs Location_clean (Some "data")
                     (Some true) toy_platform "toy" unnamed_course
                     empty_world Hret Hall)))).
Defined.

(** The slugs of [unnamed_course]. *)
Example unnamed_course_synthesized :
  synthesized 0 (visited (Some true) unnamed_course)
  = ["course_1"; "chapter_2"; "html_3"; "html_4"; "html_5"].
Proof. vm_compute. reflexivity. Qed.

(** [named_course] loads, and the load constructs its five nodes. *)
Lemma load_course_returns_witness :
  Some "data" = Some "data" ∧
  OSFS toy_platform (path_join "data" "toy") = inr tt ∧
  Some true = Some true ∧
  (list_to_map toy_attrs : gmap string string) !! "org" = Some "edX" ∧
  (list_to_map toy_attrs : gmap string string) !! "course" = Some "toy" ∧
  first_malformed (preorder named_course) = None ∧
  returned (load_course Location_clean (Some "data") (Some true)
              toy_platform "toy" (Some named_course) empty_world) = true ∧
  length (new_objects empty_world
            (load_course Location_clean (Some "data") (Some true)
               toy_platform "toy" (Some named_course) empty_world).2)
  = length (preorder named_course).
Proof.
  split_and!; [reflexivity..| |].
  - exact (proj1 (load_course_returns Location_clean (Some "data")
             (Some true) toy_platform true "data" "toy" "edX" "toy" "course"
             (list_to_map toy_attrs)
             [element "problem" [("name", "quiz")] [];
              element "problem" [("name", "quiz")] [element "html" [] []];
              element "html" [("name", EmptyString)] []]
             empty_world eq_refl eq_refl eq_refl eq_refl eq_refl eq_refl)).
  - exact (proj2 (load_course_returns Location_clean (Some "data")
             (Some true) toy_platform true "data" "toy" "edX" "toy" "course"
             (list_to_map toy_attrs)
             [element "problem" [("name", "quiz")] [];
              element "problem" [("name", "quiz")] [element "html" [] []];
              element "html" [("name", EmptyString)] []]
             empty_world eq_refl eq_refl eq_refl eq_refl eq_refl eq_refl)
             eq_refl).
Defined.

Lemma XMLModuleStore_init_aborts_witness :
  returned (XMLModuleStore_init Location_clean (Some "data") (Some true)
              toy_platform "data" None true
              [("toy", true, Some duplicate_course); ("README", false, None)])
  = true ∧
  (XMLModuleStore_init Location_clean (Some "data") (Some true)
     toy_platform "data" None
     true toy_listing).1 = inl (ParseError "<course").
Proof.
  assert (returned
            (XMLModuleStore_init Location_clean (Some "data") (Some true)
               toy_platform "data" None true
               [("toy", true, Some duplicate_course);
                ("README", false, None)]) = true) as Hbefore
    by (vm_compute; reflexivity).
  split; [exact Hbefore|].
  refine (f_equal fst
            (XMLModuleStore_init_aborts Location_clean (Some "data")
               (Some true) toy_platform "data" None true
               [("toy", true, Some duplicate_course); ("README", false, None)]
               "broken" (Some (Malformed "<course"))
               [("unnamed", true, Some unnamed_course)]
               (ParseError "<course") Hbefore _)).
  vm_compute. reflexivity.
Defined.

Lemma get_item_returns_iff_witness :
  Location_new (to_like intro_location) = inr intro_location ∧
  (returned
     (get_item (to_like intro_location)
        (modulestore
           (XMLModuleStore_init Location_clean (Some "data") (Some true)
              toy_platform "data" None true toy_listing).2)) = true
   ↔ intro_location
     ∈ location <$>
       objects (XMLModuleStore_init Location_clean (Some "data") (Some true)
                  toy_platform "data" None true toy_listing).2).
Proof.
  split; [reflexivity|].
  exact (proj1 (get_item_returns_iff Location_clean (Some "data") (Some true)
                  toy_platform "data" None true toy_listing
                  (to_like intro_location) intro_location eq_refl)).
Defined.

Lemma get_item_round_trip_witness :
  NoDup (location <$>
           objects (XMLModuleStore_init Location_clean (Some "data")
                      (Some true) toy_platform "data" None
                      true
                      [("unnamed", true, Some unnamed_course)]).2) ∧
  returned_oid
    (get_item (to_like (mkLocation "edX" "toy" "html" "html_4" None))
       (modulestore
          (XMLModuleStore_init Location_clean (Some "data") (Some true)
             toy_platform
             "data" None true [("unnamed", true, Some unnamed_course)]).2))
  = Some 3.
Proof.
  assert (NoDup (location <$>
            objects (XMLModuleStore_init Location_clean (Some "data")
                       (Some true) toy_platform "data" None
                       true
                       [("unnamed", true, Some unnamed_course)]).2))
    as Hnodup by by_evaluation.
  split; [exact Hnodup|].
  assert (mkDescriptor 3 (mkLocation "edX" "toy" "html" "html_4" None)
            {["slug" := "html_4"]} []
          ∈ objects (XMLModuleStore_init Location_clean (Some "data")
                       (Some true) toy_platform "data" None
                       true
                       [("unnamed", true, Some unnamed_course)]).2) as Hin.
  { apply (list_elem_of_lookup_2 _ 3). vm_compute. reflexivity. }
  exact (f_equal returned_oid
           (get_item_round_trip Location_clean (Some "data") (Some true)
              toy_platform "data" None true
              [("unnamed", true, Some unnamed_course)]
              _ Hnodup Hin)).
Defined.
